(** * estafette-extension-docker: the publication planner of [main.go]

    A shallow embedding of [main.go]: the tag sanitizer
    ([tidyBuildVersionAsTag]), the credential resolver
    ([getCredentialsForContainer]), the registry login ([loginIfRequired]),
    the command runner ([runCommand]) and the three actions of [main]
    (build, push, tag).

    Go strings are byte sequences; they are embedded as [string] (a list of
    8-bit [ascii] characters).  External commands and log lines are the
    program's only effects; they are recorded, in order, in a trace. *)

From Stdlib Require Import String Ascii List Bool Arith Lia.
Import ListNotations.
Local Open Scope string_scope.
Local Open Scope list_scope.

Set Implicit Arguments.

(* ===================================================================== *)
(** * Package [strings] *)
(* ===================================================================== *)

Module strings.

(** [strings.Split(s, sep)] for a one-byte separator, the only use in
    [main.go] (["/"] and [","]).  The result has one more element than
    [s] has separators; in particular [Split "" sep = [""]]. *)
Fixpoint Split (s : string) (sep : ascii) : list string :=
  match s with
  | EmptyString => [EmptyString]
  | String c rest =>
      if Ascii.eqb c sep then EmptyString :: Split rest sep
      else match Split rest sep with
           | hd :: tl => String c hd :: tl
           | [] => [String c EmptyString]
           end
  end.

(** [strings.Join(elems, sep)]. *)
Fixpoint Join (elems : list string) (sep : string) : string :=
  match elems with
  | [] => EmptyString
  | [e] => e
  | e :: rest => e ++ sep ++ Join rest sep
  end.

End strings.

(* ===================================================================== *)
(** * Package [regexp], as far as [tidyBuildVersionAsTag] uses it *)
(* ===================================================================== *)

Module regexp.

(** One member of a bracket expression: a literal byte or a range. *)
Inductive ClassItem : Type :=
| Lit (c : ascii)
| Range (lo hi : ascii).

(** The patterns of the shape [[^items]+]: one or more bytes outside the
    listed items.  Every item [main.go] lists is ASCII, so every byte of a
    multi-byte rune (and every invalid byte) lies outside the class, and a
    run of matching runes is the same thing as a run of matching bytes. *)
Record Regexp : Type := NegClassPlus { items : list ClassItem }.

Definition inItem (c : ascii) (it : ClassItem) : bool :=
  match it with
  | Lit d => Ascii.eqb c d
  | Range lo hi =>
      ((nat_of_ascii lo <=? nat_of_ascii c) && (nat_of_ascii c <=? nat_of_ascii hi))%nat
  end.

(** Does the one-byte string [c] match the bracket expression of [re]? *)
Definition matchesByte (re : Regexp) (c : ascii) : bool :=
  negb (existsb (inItem c) (items re)).

(** Left-to-right scan; [inMatch] says that the previous byte belonged to
    the match being replaced.  A match of [[^items]+] starts at the first
    matching byte and, the repetition being greedy, extends over all the
    matching bytes that follow it. *)
Fixpoint scan (re : Regexp) (repl : string) (inMatch : bool) (src : string)
  : string :=
  match src with
  | EmptyString => EmptyString
  | String c rest =>
      if matchesByte re c then
        if inMatch then scan re repl true rest
        else repl ++ scan re repl true rest
      else String c (scan re repl false rest)
  end.

(** [re.ReplaceAllString(src, repl)] for a replacement without [$]. *)
Definition ReplaceAllString (re : Regexp) (src repl : string) : string :=
  scan re repl false src.

End regexp.

(* ===================================================================== *)
(** * [tidyBuildVersionAsTag] *)
(* ===================================================================== *)

(** [regexp.MustCompile(`[^a-zA-Z0-9_.\-]+`)] *)
Definition reg : regexp.Regexp :=
  regexp.NegClassPlus
    [ regexp.Range "a" "z"; regexp.Range "A" "Z"; regexp.Range "0" "9";
      regexp.Lit "_"; regexp.Lit "."; regexp.Lit "-" ]%char.

Definition tidyBuildVersionAsTag (buildVersion : string) : string :=
  regexp.ReplaceAllString reg buildVersion "-".

(** ** The sanitizing rule in the words of the specification *)

(** A byte that may not occur in a tag: anything other than an ASCII letter,
    a digit, underscore, period or dash. *)
Definition illegal (c : ascii) : bool :=
  let n := nat_of_ascii c in
  negb (   ((97 <=? n) && (n <=? 122))
        || ((65 <=? n) && (n <=? 90))
        || ((48 <=? n) && (n <=? 57))
        || (n =? 95) || (n =? 46) || (n =? 45))%nat.

(** The decomposition of a string into its maximal runs of illegal and of
    legal bytes; each run carries its kind ([true] = illegal). *)
Fixpoint maximalRuns (s : string) : list (bool * string) :=
  match s with
  | EmptyString => []
  | String c rest =>
      match maximalRuns rest with
      | (k, run) :: more =>
          if Bool.eqb k (illegal c) then (k, String c run) :: more
          else (illegal c, String c EmptyString) :: (k, run) :: more
      | [] => [(illegal c, String c EmptyString)]
      end
  end.

Definition concatStrings (l : list string) : string :=
  fold_right append EmptyString l.

(** Every byte of [s] satisfies [p]. *)
Fixpoint allBytes (p : ascii -> bool) (s : string) : bool :=
  match s with
  | EmptyString => true
  | String c rest => p c && allBytes p rest
  end.

(** Neighbouring runs are of different kinds. *)
Fixpoint alternating (ks : list bool) : bool :=
  match ks with
  | k1 :: ((k2 :: _) as tl) => negb (Bool.eqb k1 k2) && alternating tl
  | _ => true
  end.

(** An illegal run becomes one dash, a legal run is kept. *)
Definition renderRun (r : bool * string) : string :=
  if fst r then "-" else snd r.

(** A run is not empty and all its bytes are of its kind. *)
Definition wellFormedRun (r : bool * string) : Prop :=
  snd r <> "" /\ allBytes (fun c => Bool.eqb (illegal c) (fst r)) (snd r) = true.

(* ===================================================================== *)
(** * Effects: external commands, the log, termination *)
(* ===================================================================== *)

(** An [exec.Cmd] as [main.go] sets it up: the program, its arguments, the
    working directory ([""] is the directory of the calling process) and
    whether [Stdout] and [Stderr] are attached to the process's own. *)
Record Cmd : Type := mkCmd {
  Name : string;
  Args : list string;
  Dir : string;
  Attached : bool
}.

(** What an observer of a run sees, in order: a line written by package
    [log] (without its final newline), or an external command run to its
    end. *)
Inductive Event : Type :=
| Log (line : string)
| Exec (c : Cmd).

Definition Trace : Type := list Event.

(** How a computation ends: it returns, the process exits through
    [log.Fatal] (status 1), or it panics. *)
Inductive Outcome (A : Type) : Type :=
| Done (a : A)
| Fatal
| Panic.

Arguments Fatal {A}.
Arguments Panic {A}.

(** The outside world: given what happened so far, the [error] that running
    a command returns ([None] is [nil], [Some msg] an error printing as
    [msg]). *)
Definition Engine : Type := Trace -> Cmd -> option string.

(** A computation extends the trace and ends in an outcome. *)
Definition M (A : Type) : Type := Trace -> Trace * Outcome A.

Definition ret {A} (a : A) : M A := fun tr => (tr, Done a).

Definition bind {A B} (m : M A) (k : A -> M B) : M B :=
  fun tr =>
    match m tr with
    | (tr', Done a) => k a tr'
    | (tr', Fatal) => (tr', Fatal)
    | (tr', Panic) => (tr', Panic)
    end.

Declare Scope go_scope.
Delimit Scope go_scope with go.
Notation "x <- m ;; k" := (bind m (fun x => k))
  (at level 61, m at next level, right associativity) : go_scope.
Notation "m ;; k" := (bind m (fun _ => k))
  (at level 61, right associativity) : go_scope.
Local Open Scope go_scope.

(** A pure step that may panic, run inside a computation. *)
Definition lift {A} (o : Outcome A) : M A := fun tr => (tr, o).

(** [log.Printf]: one line on the log. *)
Definition log_Printf (line : string) : M unit :=
  fun tr => (tr ++ [Log line], Done tt).

(** [log.Fatal]: one line on the log, then [os.Exit(1)]. *)
Definition log_Fatal {A} (line : string) : M A :=
  fun tr => (tr ++ [Log line], Fatal).

(** [for _, x := range l { body }] *)
Fixpoint forRange {A} (l : list A) (body : A -> M unit) : M unit :=
  match l with
  | [] => ret tt
  | x :: rest => body x ;; forRange rest body
  end.

(** [for i, x := range l { body }], the index starting at [i]. *)
Fixpoint forRangeFrom {A} (i : nat) (l : list A) (body : nat -> A -> M unit)
  : M unit :=
  match l with
  | [] => ret tt
  | x :: rest => body i x ;; forRangeFrom (S i) rest body
  end.

(* ===================================================================== *)
(** * Data of [main.go] *)
(* ===================================================================== *)

(** [contracts.ContainerRepositoryCredentialConfig], with the three fields
    [main.go] reads. *)
Record ContainerRepositoryCredentialConfig : Type := mkCredential {
  Repository : string;
  Username : string;
  Password : string
}.

(** [*contracts.ContainerRepositoryCredentialConfig]: [None] is [nil]. *)
Definition CredentialPtr : Type := option ContainerRepositoryCredentialConfig.

(** The flags after [kingpin.Parse()] (each is a [*string]; defaults and
    environment overrides have been applied by kingpin). *)
Record Flags : Type := mkFlags {
  action : string;
  repositories : string;
  container : string;
  tags : string;
  path : string;
  dockerfile : string;
  copy : string;
  args : string
}.

(** What the process starts from: its flags, its environment
    ([os.Getenv], [""] for an unset variable) and the link-time [version]. *)
Record Process : Type := mkProcess {
  flags : Flags;
  Getenv : string -> string;
  version : string
}.

(** [fmt.Sprintf("%v/%v:%v", r, *container, tag)] *)
Definition imagePath (r c tag : string) : string :=
  r ++ "/" ++ c ++ ":" ++ tag.

(* ===================================================================== *)
(** * Functions of [main.go] *)
(* ===================================================================== *)

Fixpoint contains (values : list string) (value : string) : bool :=
  match values with
  | [] => false
  | v :: rest => if String.eqb v value then true else contains rest value
  end.

Definition validateRepositories (repositories : string) : M unit :=
  if String.eqb repositories "" then
    log_Fatal "Set `repositories:` to list at least one `- <repository>` (for example like `- extensions`)"
  else ret tt.

(** The loop of [getCredentialsForContainer]; reading the [Repository] of a
    [nil] entry panics. *)
Fixpoint getCredentialsForContainer (credentials : list CredentialPtr)
    (containerImage : string) : Outcome CredentialPtr :=
  match credentials with
  | [] => Done None
  | credential :: rest =>
      let containerImageSlice := strings.Split containerImage "/" in
      let containerRepo := strings.Join (removelast containerImageSlice) "/" in
      match credential with
      | None => Panic
      | Some c =>
          if String.eqb containerRepo (Repository c) then Done (Some c)
          else getCredentialsForContainer rest containerImage
      end
  end.

Section Program.

Variable engine : Engine.

(** [json.Unmarshal([]byte(data), &credentials)] on a [nil] slice: [None]
    when [data] is not valid JSON (nothing is stored), otherwise the slice
    that has been stored.  The [error] is discarded by the caller. *)
Variable json_Unmarshal : string -> option (list CredentialPtr).

(** [cmd.Run()]: the command runs to its end and its error comes back. *)
Definition Run (c : Cmd) : M (option string) :=
  fun tr => (tr ++ [Exec c], Done (engine tr c)).

Definition handleError (err : option string) : M unit :=
  match err with
  | Some msg => log_Fatal msg
  | None => ret tt
  end.

Definition runCommand (command : string) (args : list string) : M unit :=
  log_Printf ("Running command '" ++ command ++ " " ++ strings.Join args " " ++ "'...") ;;
  err <- Run (mkCmd command args "/estafette-work" true) ;;
  handleError err.

Definition loginIfRequired (credentials : list CredentialPtr)
    (containerImage : string) : M unit :=
  credential <- lift (getCredentialsForContainer credentials containerImage) ;;
  match credential with
  | Some credential =>
      log_Printf ("Logging in to repository " ++ Repository credential
                  ++ " for image " ++ containerImage) ;;
      let loginArgs :=
        ["login"; "--username"; Username credential;
         "--password"; Password credential] in
      let repositorySlice := strings.Split (Repository credential) "/" in
      let loginArgs :=
        if (1 <? length repositorySlice)%nat
        then loginArgs ++ [hd "" repositorySlice]
        else loginArgs in
      err <- Run (mkCmd "docker" loginArgs "" false) ;;
      handleError err
  | None => ret tt
  end.

(** [l[0]]: an index out of range panics. *)
Definition index0 (l : list string) : M string :=
  match l with
  | [] => lift Panic
  | x :: _ => ret x
  end.

(** The arguments of [docker build], appended in the order of the
    source's loops. *)
Definition buildArgs (Getenv : string -> string)
    (repositoriesSlice tagsSlice argsSlice : list string)
    (container estafetteBuildVersionAsTag path dockerfile : string)
  : list string :=
  let args := ["build"] in
  let args :=
    fold_left
      (fun args r =>
         let args := args ++ ["--tag"] in
         let args := args ++ [imagePath r container estafetteBuildVersionAsTag] in
         fold_left
           (fun args t =>
              let args := args ++ ["--tag"] in
              args ++ [imagePath r container t])
           tagsSlice args)
      repositoriesSlice args in
  let args :=
    fold_left
      (fun args a =>
         let argValue := Getenv a in
         let args := args ++ ["--build-arg"] in
         args ++ [(a ++ "=" ++ argValue)%string])
      argsSlice args in
  let args := args ++ ["--file"] in
  let args := args ++ [(path ++ "/" ++ dockerfile)%string] in
  args ++ [path].

(** [case "build":] *)
Definition caseBuild (Getenv : string -> string)
    (credentials : list CredentialPtr)
    (repositoriesSlice tagsSlice copySlice argsSlice : list string)
    (container estafetteBuildVersionAsTag path dockerfile : string)
  : M unit :=
  log_Printf ("Ensuring build directory " ++ path ++ " exists") ;;
  runCommand "mkdir" ["-p"; path] ;;
  let copySlice :=
    if negb (String.eqb path ".") && negb (contains copySlice dockerfile)
    then copySlice ++ [dockerfile]
    else copySlice in
  forRange copySlice (fun c =>
    log_Printf ("Copying " ++ c ++ " to " ++ path) ;;
    runCommand "cp" ["-r"; c; path]) ;;
  r0 <- index0 repositoriesSlice ;;
  let containerPath := imagePath r0 container estafetteBuildVersionAsTag in
  loginIfRequired credentials containerPath ;;
  log_Printf ("Building docker image " ++ containerPath ++ "...") ;;
  runCommand "docker"
    (buildArgs Getenv repositoriesSlice tagsSlice argsSlice
       container estafetteBuildVersionAsTag path dockerfile).

(** [case "push":] *)
Definition casePush (credentials : list CredentialPtr)
    (repositoriesSlice tagsSlice : list string)
    (container estafetteBuildVersionAsTag : string) : M unit :=
  r0 <- index0 repositoriesSlice ;;
  let sourceContainerPath := imagePath r0 container estafetteBuildVersionAsTag in
  forRangeFrom 0 repositoriesSlice (fun i r =>
    let targetContainerPath := imagePath r container estafetteBuildVersionAsTag in
    (if (0 <? i)%nat then
       log_Printf ("Tagging container image " ++ targetContainerPath) ;;
       let tagArgs := ["tag"; sourceContainerPath; targetContainerPath] in
       err <- Run (mkCmd "docker" tagArgs "" false) ;;
       handleError err
     else ret tt) ;;
    loginIfRequired credentials targetContainerPath ;;
    log_Printf ("Pushing container image " ++ targetContainerPath) ;;
    let pushArgs := ["push"; targetContainerPath] in
    runCommand "docker" pushArgs ;;
    forRange tagsSlice (fun t =>
      let targetContainerPath := imagePath r container t in
      log_Printf ("Tagging container image " ++ targetContainerPath) ;;
      let tagArgs := ["tag"; sourceContainerPath; targetContainerPath] in
      runCommand "docker" tagArgs ;;
      loginIfRequired credentials targetContainerPath ;;
      log_Printf ("Pushing container image " ++ targetContainerPath) ;;
      let pushArgs := ["push"; targetContainerPath] in
      runCommand "docker" pushArgs)).

(** [case "tag":] *)
Definition caseTag (credentials : list CredentialPtr)
    (repositoriesSlice tagsSlice : list string)
    (container estafetteBuildVersionAsTag : string) : M unit :=
  r0 <- index0 repositoriesSlice ;;
  let sourceContainerPath := imagePath r0 container estafetteBuildVersionAsTag in
  loginIfRequired credentials sourceContainerPath ;;
  log_Printf ("Pulling container image " ++ sourceContainerPath) ;;
  let pullArgs := ["pull"; sourceContainerPath] in
  runCommand "docker" pullArgs ;;
  forRangeFrom 0 repositoriesSlice (fun i r =>
    let targetContainerPath := imagePath r container estafetteBuildVersionAsTag in
    (if (0 <? i)%nat then
       log_Printf ("Tagging container image " ++ targetContainerPath) ;;
       let tagArgs := ["tag"; sourceContainerPath; targetContainerPath] in
       runCommand "docker" tagArgs ;;
       loginIfRequired credentials targetContainerPath ;;
       log_Printf ("Pushing container image " ++ targetContainerPath) ;;
       let pushArgs := ["push"; targetContainerPath] in
       runCommand "docker" pushArgs
     else ret tt) ;;
    forRange tagsSlice (fun t =>
      let targetContainerPath := imagePath r container t in
      log_Printf ("Tagging container image " ++ targetContainerPath) ;;
      let tagArgs := ["tag"; sourceContainerPath; targetContainerPath] in
      runCommand "docker" tagArgs ;;
      loginIfRequired credentials targetContainerPath ;;
      log_Printf ("Pushing container image " ++ targetContainerPath) ;;
      let pushArgs := ["push"; targetContainerPath] in
      runCommand "docker" pushArgs)).

(** A list flag: the slice stays [nil] for the empty string and is
    otherwise [strings.Split] of the flag at the commas. *)
Definition splitList (flag : string) : list string :=
  if String.eqb flag "" then [] else strings.Split flag ",".

(** The credentials [main] works with. *)
Definition parseCredentials (credentialsJSON : string) : list CredentialPtr :=
  if String.eqb credentialsJSON "" then []
  else match json_Unmarshal credentialsJSON with
       | Some stored => stored
       | None => []
       end.

Definition main (p : Process) : M unit :=
  let f := flags p in
  log_Printf ("Starting estafette-extension-docker version " ++ version p ++ "...") ;;
  let appLabel := Getenv p "ESTAFETTE_LABEL_APP" in
  let container :=
    if String.eqb (container f) "" && negb (String.eqb appLabel "")
    then appLabel else container f in
  let credentialsJSON := Getenv p "ESTAFETTE_CI_REPOSITORY_CREDENTIALS_JSON" in
  let credentials := parseCredentials credentialsJSON in
  validateRepositories (repositories f) ;;
  let repositoriesSlice := splitList (repositories f) in
  let tagsSlice := splitList (tags f) in
  let copySlice := splitList (copy f) in
  let argsSlice := splitList (args f) in
  let estafetteBuildVersion := Getenv p "ESTAFETTE_BUILD_VERSION" in
  let estafetteBuildVersionAsTag := tidyBuildVersionAsTag estafetteBuildVersion in
  if String.eqb (action f) "build" then
    caseBuild (Getenv p) credentials repositoriesSlice tagsSlice copySlice
      argsSlice container estafetteBuildVersionAsTag (path f) (dockerfile f)
  else if String.eqb (action f) "push" then
    casePush credentials repositoriesSlice tagsSlice container
      estafetteBuildVersionAsTag
  else if String.eqb (action f) "tag" then
    caseTag credentials repositoriesSlice tagsSlice container
      estafetteBuildVersionAsTag
  else
    log_Fatal "Set `command: <command>` on this step to build, push or tag".

(** One run of the process, from an empty trace. *)
Definition run (p : Process) : Trace * Outcome unit := main p [].

End Program.

(* ===================================================================== *)
(** * Reading a trace *)
(* ===================================================================== *)

(** The commands of a trace, in order. *)
Fixpoint commands (tr : Trace) : list Cmd :=
  match tr with
  | [] => []
  | Exec c :: rest => c :: commands rest
  | Log _ :: rest => commands rest
  end.

(** The argument lists of the [docker] invocations of a trace. *)
Definition dockerCalls (tr : Trace) : list (list string) :=
  map Args (filter (fun c => String.eqb (Name c) "docker") (commands tr)).

(** Is the first argument of a [docker] invocation [verb]? *)
Definition isVerb (verb : string) (a : list string) : bool :=
  match a with
  | v :: _ => String.eqb v verb
  | [] => false
  end.

(** The engine operations of a trace: its [docker] invocations other than
    [login]. *)
Definition engineOps (tr : Trace) : list (list string) :=
  filter (fun a => negb (isVerb "login" a)) (dockerCalls tr).

(** An engine on which every command succeeds. *)
Definition succeeds : Engine := fun _ _ => None.

(** A decoder for runs without credential input. *)
Definition noJSON : string -> option (list CredentialPtr) := fun _ => None.


(* ===================================================================== *)
(** * The behaviour in the words of the specification *)
(* ===================================================================== *)

(** The repository portion of an image reference: all its slash-separated
    segments except the last, joined by slashes. *)
Definition repositoryPortion (containerImage : string) : string :=
  strings.Join (removelast (strings.Split containerImage "/")) "/".

(** No byte of [s] is a slash. *)
Definition noSlash (s : string) : bool :=
  allBytes (fun c => negb (Ascii.eqb c "/")) s.

(** The registry host of a credential's repository: its first segment,
    only if there is more than one segment. *)
Definition registryHost (repository : string) : list string :=
  match strings.Split repository "/" with
  | host :: _ :: _ => [host]
  | _ => []
  end.

(** The login command for a credential record. *)
Definition loginCommand (c : ContainerRepositoryCredentialConfig) : Cmd :=
  mkCmd "docker"
    (["login"; "--username"; Username c; "--password"; Password c]
       ++ registryHost (Repository c))
    "" false.

(** The line logged before a login. *)
Definition loginLine (c : ContainerRepositoryCredentialConfig)
    (containerImage : string) : string :=
  "Logging in to repository " ++ Repository c ++ " for image " ++ containerImage.

(* ===================================================================== *)
(** * Reasoning about runs *)
(* ===================================================================== *)

(** A triple on the commands of the trace: from a trace whose commands
    satisfy [P], the computation [m] ends with commands satisfying [Q] when
    it returns and [E] when the process terminates inside it. *)
Definition hoare {A} (P : list Cmd -> Prop) (m : M A) (Q E : list Cmd -> Prop)
  : Prop :=
  forall tr, P (commands tr) ->
    match m tr with
    | (tr', Done _) => Q (commands tr')
    | (tr', _) => E (commands tr')
    end.

(** [m] keeps the invariant [I], however it ends. *)
Definition keeps {A} (I : list Cmd -> Prop) (m : M A) : Prop := hoare I m I I.

(** [I] survives running the command [c]. *)
Definition closed (I : list Cmd -> Prop) (c : Cmd) : Prop :=
  forall cs, I cs -> I (cs ++ [c]).

(** A [docker] invocation whose first argument is [verb]. *)
Definition isDocker (verb : string) (c : Cmd) : bool :=
  String.eqb (Name c) "docker" && isVerb verb (Args c).

(** The [--tag] arguments of a build: one per pair of a repository and a
    tag, the default tag first, in the order of the two lists. *)
Definition tagArguments (repositoriesSlice tagsSlice : list string)
    (container defaultTag : string) : list string :=
  flat_map
    (fun r =>
       flat_map (fun t => ["--tag"; imagePath r container t])
                (defaultTag :: tagsSlice))
    repositoriesSlice.

(** The [--build-arg] arguments: one pair per requested name, its value
    read from the environment. *)
Definition buildArgumentPairs (Getenv : string -> string)
    (argsSlice : list string) : list string :=
  flat_map (fun a => ["--build-arg"; (a ++ "=" ++ Getenv a)%string]) argsSlice.

(** The name of the credentials variable of the environment. *)
Definition credentialsVariable : string :=
  "ESTAFETTE_CI_REPOSITORY_CREDENTIALS_JSON".

(** A decoder that stores the empty list, whatever it is given. *)
Definition emptyArray : string -> option (list CredentialPtr) :=
  fun _ => Some [].

(** [m] returns, having added exactly the engine operations [ops]. *)
Definition yields (m : M unit) (ops : list (list string)) : Prop :=
  forall tr, exists tr',
    m tr = (tr', Done tt) /\ engineOps tr' = engineOps tr ++ ops.

(** What a command contributes to the engine operations. *)
Definition opOf (c : Cmd) : list (list string) :=
  if String.eqb (Name c) "docker" && negb (isVerb "login" (Args c))
  then [Args c] else [].

(** [g i x] for each element [x] of [l] with its index [i], counted from
    [i], in order. *)
Fixpoint flatMapFrom {X Y} (i : nat) (g : nat -> X -> list Y) (l : list X)
  : list Y :=
  match l with
  | [] => []
  | x :: rest => g i x ++ flatMapFrom (S i) g rest
  end.

(** Tag [source] as [target], then push [target]. *)
Definition tagAndPush (source target : string) : list (list string) :=
  [["tag"; source; target]; ["push"; target]].

(** The explicit tags of one repository, in the order of [tagsSlice]. *)
Definition fanOut (source r container : string) (tagsSlice : list string)
  : list (list string) :=
  flat_map (fun t => tagAndPush source (imagePath r container t)) tagsSlice.

(** The operations of the push action: per repository, in order, the
    default tag (tagged first for every repository but the first), then the
    explicit tags. *)
Definition pushPlan (source : string) (repositoriesSlice tagsSlice : list string)
    (container defaultTag : string) : list (list string) :=
  flatMapFrom 0
    (fun i r =>
       (if (0 <? i)%nat
        then [["tag"; source; imagePath r container defaultTag]] else [])
       ++ [["push"; imagePath r container defaultTag]]
       ++ fanOut source r container tagsSlice)
    repositoriesSlice.

(** The fan-out of the tag action: per repository, in order, the default
    tag for every repository but the first, then the explicit tags. *)
Definition tagPlan (source : string) (repositoriesSlice tagsSlice : list string)
    (container defaultTag : string) : list (list string) :=
  flatMapFrom 0
    (fun i r =>
       (if (0 <? i)%nat
        then tagAndPush source (imagePath r container defaultTag) else [])
       ++ fanOut source r container tagsSlice)
    repositoriesSlice.

(** The container name [main] works with: the flag, or the app label when
    the flag is empty and the label is not. *)
Definition containerOf (p : Process) : string :=
  if String.eqb (container (flags p)) ""
     && negb (String.eqb (Getenv p "ESTAFETTE_LABEL_APP") "")
  then Getenv p "ESTAFETTE_LABEL_APP" else container (flags p).

(** The default tag of a run. *)
Definition defaultTagOf (p : Process) : string :=
  tidyBuildVersionAsTag (Getenv p "ESTAFETTE_BUILD_VERSION").

(** The source image of a run: the first repository at the default tag. *)
Definition sourceOf (p : Process) : string :=
  imagePath (hd "" (splitList (repositories (flags p))))
            (containerOf p) (defaultTagOf p).

(** The pull of the tag action. *)
Definition pullCommand (source : string) : Cmd :=
  mkCmd "docker" ["pull"; source] "/estafette-work" true.

(** A command that is neither [docker tag] nor [docker push]. *)
Definition noTagPush (c : Cmd) : Prop :=
  isDocker "tag" c = false /\ isDocker "push" c = false.

(** [pull] has been run, and neither a tag nor a push before it. *)
Definition pulled (pull : Cmd) (cs : list Cmd) : Prop :=
  exists pre post, cs = pre ++ pull :: post /\ Forall noTagPush pre.

(** No tag and no push has been run, unless after [pull]. *)
Definition pulledFirst (pull : Cmd) (cs : list Cmd) : Prop :=
  Forall noTagPush cs \/ pulled pull cs.

(** The one invocation of [docker build]. *)
Definition buildCommand (p : Process) : Cmd :=
  mkCmd "docker"
    (["build"]
       ++ tagArguments (splitList (repositories (flags p))) (splitList (tags (flags p)))
            (containerOf p) (defaultTagOf p)
       ++ buildArgumentPairs (Getenv p) (splitList (args (flags p)))
       ++ ["--file"; (path (flags p) ++ "/" ++ dockerfile (flags p))%string;
           path (flags p)])
    "/estafette-work" true.

(** The [docker build] invocations among some commands. *)
Definition builds (cs : list Cmd) : list Cmd := filter (isDocker "build") cs.

(** The first line of the log. *)
Definition startLine (p : Process) : string :=
  "Starting estafette-extension-docker version " ++ version p ++ "...".

(** The credentials of a run. *)
Definition credentialsOf (json_Unmarshal : string -> option (list CredentialPtr))
    (p : Process) : list CredentialPtr :=
  parseCredentials json_Unmarshal (Getenv p credentialsVariable).

(** The run of the specification's example: push to the repositories [a]
    and [b] with the extra tag [dev], container [app], build version
    [1.0], no credentials. *)
Definition pushExample : Process :=
  mkProcess (mkFlags "push" "a,b" "app" "dev" "." "Dockerfile" "" "")
            (fun name => if String.eqb name "ESTAFETTE_BUILD_VERSION" then "1.0" else "")
            "".

(** The sequence the specification's example expects. *)
Definition expectedPushExample : list (list string) :=
  [ ["tag"; "a/app:1.0"; "b/app:1.0"]; ["push"; "b/app:1.0"];
    ["tag"; "a/app:1.0"; "b/app:dev"]; ["push"; "b/app:dev"];
    ["push"; "a/app:1.0"]; ["push"; "a/app:dev"] ].

(** The sequence the push case produces for the example. *)
Definition actualPushExample : list (list string) :=
  [ ["push"; "a/app:1.0"];
    ["tag"; "a/app:1.0"; "a/app:dev"]; ["push"; "a/app:dev"];
    ["tag"; "a/app:1.0"; "b/app:1.0"]; ["push"; "b/app:1.0"];
    ["tag"; "a/app:1.0"; "b/app:dev"]; ["push"; "b/app:dev"] ].

(** ** Example runs *)

(** A credential record for a repository on a named registry. *)
Definition estafetteCredential : ContainerRepositoryCredentialConfig :=
  mkCredential "docker.io/estafette" "user" "secret".

(** A credential record for a repository on the default registry. *)
Definition extensionsCredential : ContainerRepositoryCredentialConfig :=
  mkCredential "extensions" "bot" "token".

(** A decoder that stores the two records above. *)
Definition twoCredentials : string -> option (list CredentialPtr) :=
  fun _ => Some [Some estafetteCredential; Some extensionsCredential].

(** An environment with a build version and credential input. *)
Definition exampleEnv (name : string) : string :=
  if String.eqb name "ESTAFETTE_BUILD_VERSION" then "1.0"
  else if String.eqb name "ESTAFETTE_CI_REPOSITORY_CREDENTIALS_JSON" then "json"
  else if String.eqb name "ESTAFETTE_LABEL_APP" then "app"
  else if String.eqb name "GOOS" then "linux"
  else "".

(** Tag in the repositories [a] and [b] with the extra tag [dev]. *)
Definition tagExample : Process :=
  mkProcess (mkFlags "tag" "a,b" "" "dev" "." "Dockerfile" "" "") exampleEnv "".

(** Tag in the one repository [extensions], without extra tags. *)
Definition tagOnlyExample : Process :=
  mkProcess (mkFlags "tag" "extensions" "docker" "" "." "Dockerfile" "" "")
            exampleEnv "".

(** Build for the repositories [a] and [b] with the extra tag [dev] and the
    build argument [GOOS], from the directory [publish]. *)
Definition buildExample : Process :=
  mkProcess (mkFlags "build" "a,b" "" "dev" "publish" "Dockerfile" "" "GOOS")
            exampleEnv "".

(** No repositories. *)
Definition noRepositoriesExample : Process :=
  mkProcess (mkFlags "push" "" "app" "dev" "." "Dockerfile" "" "") exampleEnv "".

(** An action that does not exist. *)
Definition deployExample : Process :=
  mkProcess (mkFlags "deploy" "a" "app" "" "." "Dockerfile" "" "") exampleEnv "".

(** A [docker] command as [runCommand] runs it. *)
Definition docker (args : list string) : Cmd :=
  mkCmd "docker" args "/estafette-work" true.

(* ===================================================================== *)
(** * Further notions *)
(* ===================================================================== *)

(** A byte that may occur in a tag. *)
Definition legal (c : ascii) : bool := negb (illegal c).

(** No byte of [s] is a comma. *)
Definition noComma (s : string) : bool :=
  allBytes (fun c => negb (Ascii.eqb c ",")) s.

(** Every command of the trace succeeded when it was run. *)
Definition allSucceeded (engine : Engine) (tr : Trace) : Prop :=
  forall tr1 c tr2, tr = tr1 ++ Exec c :: tr2 -> engine tr1 c = None.

(** The last command of the trace failed, its error is the last line of
    the log, and every command before it succeeded. *)
Definition failedLast (engine : Engine) (tr : Trace) : Prop :=
  exists tr0 c msg,
    tr = tr0 ++ [Exec c; Log msg]
    /\ allSucceeded engine tr0 /\ engine tr0 c = Some msg.

(** [m] stops at the first command that fails. *)
Definition failfast (engine : Engine) {A} (m : M A) : Prop :=
  forall tr, allSucceeded engine tr ->
    match m tr with
    | (tr', Done _) => allSucceeded engine tr'
    | (tr', Fatal) => allSucceeded engine tr' \/ failedLast engine tr'
    | (tr', Panic) => allSucceeded engine tr'
    end.

(** The run [m] under some engine against the run [ms] of the same program
    under an engine on which every command succeeds: started from traces
    with the same commands, they end alike with the same commands, or [m] is
    fatal and its commands are the first ones of [ms].  ([ms] only adds
    commands to its trace.) *)
Definition truncates {A} (m ms : M A) : Prop :=
  (forall trs, exists rest, commands (fst (ms trs)) = commands trs ++ rest)
  /\ (forall tr trs,
        commands tr = commands trs ->
        (snd (m tr) = snd (ms trs)
         /\ commands (fst (m tr)) = commands (fst (ms trs)))
        \/ (snd (m tr) = Fatal
            /\ exists rest,
                 commands (fst (ms trs)) = commands (fst (m tr)) ++ rest)).

(** An engine that refuses every [docker pull]. *)
Definition refusesPull : Engine :=
  fun _ c => if isDocker "pull" c then Some "unauthorized" else None.

(** [m] returns, having run exactly the commands [cs]. *)
Definition yieldsC (m : M unit) (cs : list Cmd) : Prop :=
  forall tr, exists tr',
    m tr = (tr', Done tt) /\ commands tr' = commands tr ++ cs.

(** The login [loginIfRequired] runs for an image: the login of the first
    record whose repository is the repository portion of the image, if there
    is one. *)
Definition loginsFor (records : list ContainerRepositoryCredentialConfig)
    (containerImage : string) : list Cmd :=
  match find (fun c => String.eqb (repositoryPortion containerImage) (Repository c))
             records with
  | Some c => [loginCommand c]
  | None => []
  end.

(** Tag, log in if required, push: one step of the fan-out. *)
Definition fanOutStep (records : list ContainerRepositoryCredentialConfig)
    (source target : string) : list Cmd :=
  [docker ["tag"; source; target]] ++ loginsFor records target
    ++ [docker ["push"; target]].

(** The files the build action copies: the copy list, and the dockerfile
    after it when the build path is not [.] and the list does not name the
    dockerfile. *)
Definition copyList (p : Process) : list string :=
  if negb (String.eqb (path (flags p)) ".")
     && negb (contains (splitList (copy (flags p))) (dockerfile (flags p)))
  then splitList (copy (flags p)) ++ [dockerfile (flags p)]
  else splitList (copy (flags p)).

(** The image references of a run: every repository with the default tag
    and then with every explicit tag, in the order of the lists. *)
Definition references (repositoriesSlice tagsSlice : list string)
    (container defaultTag : string) : list string :=
  flat_map (fun r => map (imagePath r container) (defaultTag :: tagsSlice))
           repositoriesSlice.

(** The references pushed by some engine operations, in order. *)
Definition pushed (ops : list (list string)) : list string :=
  flat_map (fun a => match a with
                     | [verb; target] =>
                         if String.eqb verb "push" then [target] else []
                     | _ => []
                     end) ops.

(** Push to the repositories [extensions] and [docker.io/estafette] with
    the extra tag [dev]; both repositories have a credential record in
    [twoCredentials]. *)
Definition pushLoginExample : Process :=
  mkProcess
    (mkFlags "push" "extensions,docker.io/estafette" "docker" "dev" "."
       "Dockerfile" "" "")
    exampleEnv "".

(** Build for the repository [extensions] from the directory [publish],
    copying one certificate file. *)
Definition buildCopyExample : Process :=
  mkProcess
    (mkFlags "build" "extensions" "docker" "" "publish" "Dockerfile"
       "/etc/ssl/certs/ca-certificates.crt" "")
    exampleEnv "".

(** [m] panics only if the credential list holds a [nil] entry. *)
Definition panicsOnNilOnly (credentials : list CredentialPtr) {A} (m : M A) : Prop :=
  forall tr, snd (m tr) = Panic -> In None credentials.

(** A decoder that stores one [nil] entry, as for the JSON array holding
    [null]. *)
Definition nullEntry : string -> option (list CredentialPtr) :=
  fun _ => Some [None].

(** [m] is fatal only by a command that fails: the trace then ends with
    that command and its error. *)
Definition fatalByFailure (engine : Engine) {A} (m : M A) : Prop :=
  forall tr, snd (m tr) = Fatal ->
    exists tr0 c msg,
      fst (m tr) = tr0 ++ [Exec c; Log msg] /\ engine tr0 c = Some msg.
Unset Implicit Arguments.

(* ===================================================================== *)
(** * The tag sanitizer *)
(* ===================================================================== *)

Section Sanitizer.

(** The bracket expression of [reg] excludes exactly the legal bytes. *)
Lemma matchesByte_reg (c : ascii) : regexp.matchesByte reg c = illegal c.
Proof.
  destruct c as [[] [] [] [] [] [] [] []]; reflexivity.
Qed.

Lemma scan_cons (b : bool) (c : ascii) (rest : string) :
  regexp.scan reg "-" b (String c rest) =
  if illegal c then
    if b then regexp.scan reg "-" true rest
    else String "-" (regexp.scan reg "-" true rest)
  else String c (regexp.scan reg "-" false rest).
Proof.
  simpl. rewrite matchesByte_reg. reflexivity.
Qed.

(** What the scan yields, outside a match and inside one: inside a match
    the illegal run the string starts with (if any) has already been
    replaced. *)
Lemma scan_runs (s : string) :
  regexp.scan reg "-" false s = concatStrings (map renderRun (maximalRuns s))
  /\ regexp.scan reg "-" true s =
     match maximalRuns s with
     | (true, _) :: more => concatStrings (map renderRun more)
     | rs => concatStrings (map renderRun rs)
     end.
Proof.
  induction s as [|c rest [IHf IHt]].
  - split; reflexivity.
  - rewrite !scan_cons. cbn [maximalRuns].
    destruct (illegal c) eqn:Hc.
    + rewrite IHt.
      destruct (maximalRuns rest) as [|[[] run] more]; split; reflexivity.
    + rewrite IHf.
      destruct (maximalRuns rest) as [|[[] run] more]; split; reflexivity.
Qed.

Lemma maximalRuns_concat (s : string) :
  concatStrings (map snd (maximalRuns s)) = s.
Proof.
  induction s as [|c rest IH]; [reflexivity|].
  cbn [maximalRuns].
  destruct (maximalRuns rest) as [|[k run] more].
  - simpl in *. now rewrite <- IH.
  - destruct (Bool.eqb k (illegal c)); simpl in *; now rewrite IH.
Qed.

Lemma maximalRuns_wellFormed (s : string) :
  Forall wellFormedRun (maximalRuns s).
Proof.
  induction s as [|c rest IH]; [constructor|].
  cbn [maximalRuns].
  destruct (maximalRuns rest) as [|[k run] more].
  - constructor; [|constructor].
    split; simpl; [discriminate|]. now rewrite eqb_reflx.
  - destruct (Bool.eqb k (illegal c)) eqn:Hk.
    + apply eqb_prop in Hk. subst k.
      inversion IH as [|? ? [Hne Hall] Hmore]; subst.
      constructor; [|assumption].
      split; simpl in *; [discriminate|].
      now rewrite eqb_reflx, Hall.
    + constructor; [|assumption].
      split; simpl; [discriminate|]. now rewrite eqb_reflx.
Qed.

Lemma maximalRuns_alternating (s : string) :
  alternating (map fst (maximalRuns s)) = true.
Proof.
  induction s as [|c rest IH]; [reflexivity|].
  cbn [maximalRuns].
  destruct (maximalRuns rest) as [|[k run] more]; [reflexivity|].
  destruct (Bool.eqb k (illegal c)) eqn:Hk.
  - exact IH.
  - cbn [map fst alternating] in *.
    rewrite IH, andb_true_r.
    destruct k, (illegal c); simpl in *; congruence.
Qed.

(** Legal bytes are passed through. *)
Lemma scan_legal (b : bool) (s : string) :
  allBytes (fun c => negb (illegal c)) s = true ->
  regexp.scan reg "-" b s = s.
Proof.
  revert b. induction s as [|c rest IH]; intros b H; [reflexivity|].
  simpl in H. apply andb_true_iff in H as [Hc Hrest].
  rewrite scan_cons. apply negb_true_iff in Hc. rewrite Hc.
  now rewrite IH.
Qed.

(** The result holds legal bytes only. *)
Lemma scan_is_legal (b : bool) (s : string) :
  allBytes (fun c => negb (illegal c)) (regexp.scan reg "-" b s) = true.
Proof.
  revert b. induction s as [|c rest IH]; intros b; [reflexivity|].
  rewrite scan_cons.
  destruct (illegal c) eqn:Hc.
  - destruct b; [apply IH|]. simpl. apply IH.
  - simpl. now rewrite Hc, IH.
Qed.

End Sanitizer.

(** C2. Sanitizing is total and replaces every maximal run of bytes other
    than ASCII letters, digits, underscore, period and dash by one dash,
    keeping everything else as it is: the maximal runs of [s] concatenate to
    [s], each is non-empty and of one kind, neighbours differ in kind, and
    the result is the concatenation of the runs with each illegal run
    rendered as ["-"].  The two examples of the specification hold. *)
Theorem C2_tidy_replaces_maximal_runs :
  (forall s : string,
      let rs := maximalRuns s in
      concatStrings (map snd rs) = s
      /\ Forall wellFormedRun rs
      /\ alternating (map fst rs) = true
      /\ tidyBuildVersionAsTag s = concatStrings (map renderRun rs))
  /\ tidyBuildVersionAsTag "1.2.3-rc.1" = "1.2.3-rc.1"
  /\ tidyBuildVersionAsTag "feature/foo bar" = "feature-foo-bar".
Proof.
  split; [|split; reflexivity].
  intros s rs. subst rs.
  repeat split.
  - apply maximalRuns_concat.
  - apply maximalRuns_wellFormed.
  - apply maximalRuns_alternating.
  - apply (scan_runs s).
Qed.

(** C3. Sanitizing is idempotent. *)
Theorem C3_tidy_idempotent (s : string) :
  tidyBuildVersionAsTag (tidyBuildVersionAsTag s) = tidyBuildVersionAsTag s.
Proof.
  unfold tidyBuildVersionAsTag, regexp.ReplaceAllString.
  apply scan_legal, scan_is_legal.
Qed.

(* ===================================================================== *)
(** * Splitting and joining *)
(* ===================================================================== *)

Section Strings.

Variable sep : ascii.

Lemma Split_not_nil (s : string) : strings.Split s sep <> [].
Proof.
  destruct s as [|c rest]; simpl; [discriminate|].
  destruct (Ascii.eqb c sep); [discriminate|].
  destruct (strings.Split rest sep); discriminate.
Qed.

Lemma Split_app (a b : string) :
  strings.Split (a ++ String sep b) sep
  = strings.Split a sep ++ strings.Split b sep.
Proof.
  induction a as [|c rest IH]; simpl.
  - now rewrite Ascii.eqb_refl.
  - destruct (Ascii.eqb c sep); [now rewrite IH|].
    rewrite IH.
    pose proof (Split_not_nil rest) as Hne.
    destruct (strings.Split rest sep); [contradiction|reflexivity].
Qed.

Lemma Split_no_sep (s : string) :
  allBytes (fun c => negb (Ascii.eqb c sep)) s = true ->
  strings.Split s sep = [s].
Proof.
  induction s as [|c rest IH]; intros H; [reflexivity|].
  simpl in *. apply andb_true_iff in H as [Hc Hrest].
  apply negb_true_iff in Hc. rewrite Hc, (IH Hrest). reflexivity.
Qed.

Lemma Join_cons (e : string) (l : list string) :
  l <> [] ->
  strings.Join (e :: l) (String sep "") = (e ++ String sep (strings.Join l (String sep "")))%string.
Proof.
  destruct l; [contradiction|reflexivity].
Qed.

Lemma Join_cons_byte (c : ascii) (e : string) (l : list string) :
  strings.Join (String c e :: l) (String sep "")
  = String c (strings.Join (e :: l) (String sep "")).
Proof.
  destruct l; reflexivity.
Qed.

(** Joining what has been split gives the string back. *)
Lemma Join_Split (s : string) :
  strings.Join (strings.Split s sep) (String sep "") = s.
Proof.
  induction s as [|c rest IH]; [reflexivity|].
  simpl. destruct (Ascii.eqb c sep) eqn:Hc.
  - apply Ascii.eqb_eq in Hc. subst c.
    rewrite Join_cons by apply Split_not_nil.
    now rewrite IH.
  - pose proof (Split_not_nil rest) as Hne.
    destruct (strings.Split rest sep) as [|hd tl]; [contradiction|].
    rewrite Join_cons_byte. now rewrite IH.
Qed.

End Strings.

(** The repository portion of [r/c:tag] is [r] when neither the container
    name nor the tag holds a slash. *)
Lemma repositoryPortion_imagePath (r c tag : string) :
  noSlash c = true -> noSlash tag = true ->
  repositoryPortion (imagePath r c tag) = r.
Proof.
  intros Hc Ht. unfold repositoryPortion, imagePath.
  change (r ++ "/" ++ c ++ ":" ++ tag)%string
    with (r ++ String "/" (c ++ String ":" tag))%string.
  rewrite Split_app.
  assert (Hlast : strings.Split (c ++ String ":" tag) "/"
                  = [(c ++ String ":" tag)%string]).
  { apply Split_no_sep.
    revert Hc. unfold noSlash in *. clear -Ht.
    induction c as [|x rest IH]; simpl; intros Hc.
    - exact Ht.
    - apply andb_true_iff in Hc as [Hx Hrest]. now rewrite Hx, IH. }
  rewrite Hlast, removelast_last.
  apply (Join_Split "/").
Qed.

(* ===================================================================== *)
(** * The credential resolver *)
(* ===================================================================== *)

Lemma getCredentials_find (records : list ContainerRepositoryCredentialConfig)
    (containerImage : string) :
  getCredentialsForContainer (map Some records) containerImage
  = Done (find (fun c => String.eqb (repositoryPortion containerImage) (Repository c))
               records).
Proof.
  induction records as [|c rest IH]; [reflexivity|].
  simpl. fold (repositoryPortion containerImage).
  destruct (String.eqb (repositoryPortion containerImage) (Repository c));
    [reflexivity|exact IH].
Qed.

(** C4. The resolver compares the repository portion of the image reference
    (all slash-separated segments but the last, joined by slashes) with the
    repository field of each record, in the order of the list, and returns
    the first record for which they are equal; it returns none for the empty
    list and when no record matches. *)
Theorem C4_resolver_first_match
    (records : list ContainerRepositoryCredentialConfig) (containerImage : string) :
  let containerRepo :=
    strings.Join (removelast (strings.Split containerImage "/")) "/" in
  getCredentialsForContainer (map Some records) containerImage
  = Done (find (fun c => String.eqb containerRepo (Repository c)) records)
  /\ getCredentialsForContainer [] containerImage = Done None
  /\ ((forall c, In c records -> Repository c <> containerRepo) ->
      getCredentialsForContainer (map Some records) containerImage = Done None)
  /\ (forall pre c post,
        records = pre ++ c :: post ->
        (forall d, In d pre -> Repository d <> containerRepo) ->
        Repository c = containerRepo ->
        getCredentialsForContainer (map Some records) containerImage
        = Done (Some c)).
Proof.
  intros containerRepo.
  fold (repositoryPortion containerImage) in containerRepo. subst containerRepo.
  repeat split.
  - apply getCredentials_find.
  - intros Hnone. rewrite getCredentials_find. f_equal.
    induction records as [|c rest IH]; [reflexivity|].
    simpl. destruct (String.eqb_spec (repositoryPortion containerImage) (Repository c)) as [E|E].
    + exfalso. apply (Hnone c); [now left|now symmetry].
    + apply IH. intros d Hd. apply Hnone. now right.
  - intros pre c post -> Hpre Hc. rewrite getCredentials_find. f_equal.
    induction pre as [|d pre IH]; simpl.
    + rewrite Hc, String.eqb_refl. reflexivity.
    + destruct (String.eqb_spec (repositoryPortion containerImage) (Repository d)) as [E|E].
      * exfalso. apply (Hpre d); [now left|now symmetry].
      * apply IH. intros e He. apply Hpre. now right.
Qed.

(* ===================================================================== *)
(** * Rules for triples *)
(* ===================================================================== *)

Lemma commands_app (tr1 tr2 : Trace) :
  commands (tr1 ++ tr2) = commands tr1 ++ commands tr2.
Proof.
  induction tr1 as [|[l|c] rest IH]; simpl; [reflexivity|exact IH|now rewrite IH].
Qed.

Lemma commands_log (tr : Trace) (l : string) : commands (tr ++ [Log l]) = commands tr.
Proof. rewrite commands_app. apply app_nil_r. Qed.

Lemma commands_exec (tr : Trace) (c : Cmd) :
  commands (tr ++ [Exec c]) = commands tr ++ [c].
Proof. now rewrite commands_app. Qed.

Section Rules.

Variable engine : Engine.
Context {A B : Type}.

Lemma hoare_bind (P Q R E : list Cmd -> Prop) (m : M A) (k : A -> M B) :
  hoare P m Q E -> (forall a, hoare Q (k a) R E) -> hoare P (bind m k) R E.
Proof.
  intros Hm Hk tr HP. unfold bind.
  specialize (Hm tr HP). destruct (m tr) as [tr' [a| |]]; auto.
  now apply Hk.
Qed.

Lemma hoare_weaken (P P' Q Q' E E' : list Cmd -> Prop) (m : M A) :
  hoare P m Q E ->
  (forall cs, P' cs -> P cs) -> (forall cs, Q cs -> Q' cs) ->
  (forall cs, E cs -> E' cs) ->
  hoare P' m Q' E'.
Proof.
  intros Hm HP HQ HE tr H. specialize (Hm tr (HP _ H)).
  destruct (m tr) as [tr' [a| |]]; auto.
Qed.

Lemma hoare_ret (P E : list Cmd -> Prop) (a : A) : hoare P (ret a) P E.
Proof. intros tr H. exact H. Qed.

Lemma hoare_lift (P : list Cmd -> Prop) (o : Outcome A) : hoare P (lift o) P P.
Proof. intros tr H. unfold lift. destruct o; exact H. Qed.

Lemma hoare_log (P E : list Cmd -> Prop) (l : string) : hoare P (log_Printf l) P E.
Proof. intros tr H. simpl. now rewrite commands_log. Qed.

Lemma hoare_fatal (P Q : list Cmd -> Prop) (l : string) :
  hoare P (@log_Fatal A l) Q P.
Proof. intros tr H. simpl. now rewrite commands_log. Qed.

Lemma hoare_Run (P Q E : list Cmd -> Prop) (c : Cmd) :
  (forall cs, P cs -> Q (cs ++ [c])) -> hoare P (Run engine c) Q E.
Proof. intros H tr HP. simpl. rewrite commands_exec. now apply H. Qed.

Lemma hoare_handleError (P : list Cmd -> Prop) (err : option string) :
  hoare P (handleError err) P P.
Proof. destruct err; simpl; [intros tr H; simpl; now rewrite commands_log|intros tr H; exact H]. Qed.

End Rules.

Section Keeps.

Variable engine : Engine.
Variable I : list Cmd -> Prop.

Lemma keeps_bind {A B} (m : M A) (k : A -> M B) :
  keeps I m -> (forall a, keeps I (k a)) -> keeps I (bind m k).
Proof. apply hoare_bind. Qed.

Lemma keeps_ret {A} (a : A) : keeps I (ret a).
Proof. apply hoare_ret. Qed.

Lemma keeps_lift {A} (o : Outcome A) : keeps I (lift o).
Proof. apply hoare_lift. Qed.

Lemma keeps_log (l : string) : keeps I (log_Printf l).
Proof. apply hoare_log. Qed.

Lemma keeps_fatal {A} (l : string) : keeps I (@log_Fatal A l).
Proof. apply hoare_fatal. Qed.

Lemma keeps_Run (c : Cmd) : closed I c -> keeps I (Run engine c).
Proof. intros H. now apply hoare_Run. Qed.

Lemma keeps_handleError (err : option string) : keeps I (handleError err).
Proof. apply hoare_handleError. Qed.

Lemma keeps_runCommand (command : string) (args : list string) :
  closed I (mkCmd command args "/estafette-work" true) ->
  keeps I (runCommand engine command args).
Proof.
  intros H. unfold runCommand.
  apply keeps_bind; [apply keeps_log|intros _].
  apply keeps_bind; [now apply keeps_Run|intros err].
  apply keeps_handleError.
Qed.

Lemma keeps_forRange {A} (l : list A) (body : A -> M unit) :
  (forall x, keeps I (body x)) -> keeps I (forRange l body).
Proof.
  intros H. induction l as [|x rest IH]; simpl.
  - apply keeps_ret.
  - apply keeps_bind; [apply H|intros _; exact IH].
Qed.

Lemma keeps_forRangeFrom {A} (i : nat) (l : list A) (body : nat -> A -> M unit) :
  (forall j x, keeps I (body j x)) -> keeps I (forRangeFrom i l body).
Proof.
  intros H. revert i. induction l as [|x rest IH]; intros i; simpl.
  - apply keeps_ret.
  - apply keeps_bind; [apply H|intros _; apply IH].
Qed.

Lemma keeps_index0 (l : list string) : keeps I (index0 l).
Proof. destruct l; [apply keeps_lift|apply keeps_ret]. Qed.

End Keeps.

(* ===================================================================== *)
(** * The registry login *)
(* ===================================================================== *)

(** A record the resolver returns is an entry of the list. *)
Lemma getCredentials_In (credentials : list CredentialPtr)
    (containerImage : string) (c : ContainerRepositoryCredentialConfig) :
  getCredentialsForContainer credentials containerImage = Done (Some c) ->
  In (Some c) credentials
  /\ Repository c = repositoryPortion containerImage.
Proof.
  induction credentials as [|[d|] rest IH]; simpl; [discriminate| |discriminate].
  fold (repositoryPortion containerImage).
  destruct (String.eqb_spec (repositoryPortion containerImage) (Repository d)) as [E|E].
  - intros [= ->]. split; [now left|now symmetry].
  - intros H. destruct (IH H) as [Hin Hrepo]. split; [now right|exact Hrepo].
Qed.

Lemma loginArgs_host (base : list string) (repository : string) :
  (if (1 <? length (strings.Split repository "/"))%nat
   then base ++ [hd "" (strings.Split repository "/")]
   else base)
  = base ++ registryHost repository.
Proof.
  unfold registryHost.
  destruct (strings.Split repository "/") as [|host [|second rest]]; simpl;
    [now rewrite app_nil_r|now rewrite app_nil_r|reflexivity].
Qed.

Section Login.

Variable engine : Engine.

(** With no matching record there is nothing to do. *)
Lemma loginIfRequired_none (credentials : list CredentialPtr)
    (containerImage : string) (tr : Trace) :
  getCredentialsForContainer credentials containerImage = Done None ->
  loginIfRequired engine credentials containerImage tr = (tr, Done tt).
Proof.
  intros H. unfold loginIfRequired, bind, lift. now rewrite H.
Qed.

(** With a matching record the login is announced and run, and its failure
    is fatal. *)
Lemma loginIfRequired_some (credentials : list CredentialPtr)
    (containerImage : string) (c : ContainerRepositoryCredentialConfig)
    (tr : Trace) :
  getCredentialsForContainer credentials containerImage = Done (Some c) ->
  loginIfRequired engine credentials containerImage tr =
  let tr1 := tr ++ [Log (loginLine c containerImage)] in
  match engine tr1 (loginCommand c) with
  | None => (tr1 ++ [Exec (loginCommand c)], Done tt)
  | Some msg => ((tr1 ++ [Exec (loginCommand c)]) ++ [Log msg], Fatal)
  end.
Proof.
  intros H. unfold loginIfRequired, bind, lift. rewrite H.
  unfold log_Printf, Run. rewrite loginArgs_host.
  fold (loginCommand c). fold (loginLine c containerImage).
  destruct (engine _ _); reflexivity.
Qed.

Lemma keeps_login (I : list Cmd -> Prop) (credentials : list CredentialPtr)
    (containerImage : string) :
  (forall c, In (Some c) credentials -> closed I (loginCommand c)) ->
  keeps I (loginIfRequired engine credentials containerImage).
Proof.
  intros H tr HI.
  destruct (getCredentialsForContainer credentials containerImage)
    as [[c|]| |] eqn:Hget.
  - rewrite (loginIfRequired_some _ _ _ _ Hget). cbv zeta.
    apply getCredentials_In in Hget as [Hin _].
    destruct (engine _ _);
      rewrite ?commands_log, commands_exec, commands_log; now apply H.
  - now rewrite (loginIfRequired_none _ _ _ Hget).
  - unfold loginIfRequired, bind, lift. now rewrite Hget.
  - unfold loginIfRequired, bind, lift. now rewrite Hget.
Qed.

End Login.

(** C5. [loginIfRequired] does nothing when the resolver finds no record.
    When it finds the record [c] it runs one command, [docker login] with
    the record's user name and password, and passes the first
    slash-delimited segment of the record's repository as one more argument
    exactly when the repository has more than one segment; the run goes on
    if the login succeeds and is fatal if it fails. *)
Theorem C5_login_if_required
    (engine : Engine) (credentials : list CredentialPtr)
    (containerImage : string) (tr : Trace) :
  (getCredentialsForContainer credentials containerImage = Done None ->
   loginIfRequired engine credentials containerImage tr = (tr, Done tt))
  /\ (forall c,
        getCredentialsForContainer credentials containerImage = Done (Some c) ->
        let segments := strings.Split (Repository c) "/" in
        let base := ["login"; "--username"; Username c; "--password"; Password c] in
        let login := mkCmd "docker"
                       (if (1 <? length segments)%nat
                        then base ++ [hd "" segments] else base) "" false in
        commands (fst (loginIfRequired engine credentials containerImage tr))
        = commands tr ++ [login]
        /\ snd (loginIfRequired engine credentials containerImage tr)
           = match engine (tr ++ [Log (loginLine c containerImage)]) login with
             | None => Done tt
             | Some _ => Fatal
             end).
Proof.
  split.
  - apply loginIfRequired_none.
  - intros c H segments base login.
    assert (Hlogin : login = loginCommand c).
    { unfold login, segments, base. now rewrite loginArgs_host. }
    rewrite Hlogin, (loginIfRequired_some engine _ _ c tr H). cbv zeta.
    destruct (engine _ _); simpl;
      rewrite ?commands_log, commands_exec, commands_log; split; reflexivity.
Qed.

(* ===================================================================== *)
(** * Build arguments *)
(* ===================================================================== *)

Lemma fold_left_append {X} (g : X -> list string) (l : list X) (acc : list string) :
  fold_left (fun acc x => acc ++ g x) l acc = acc ++ flat_map g l.
Proof.
  revert acc. induction l as [|x rest IH]; intros acc; simpl.
  - now rewrite app_nil_r.
  - now rewrite IH, app_assoc.
Qed.

Lemma fold_left_ext {X Y} (f g : Y -> X -> Y) (l : list X) (acc : Y) :
  (forall a x, f a x = g a x) -> fold_left f l acc = fold_left g l acc.
Proof.
  intros H. revert acc. induction l as [|x rest IH]; intros acc; simpl;
    [reflexivity|now rewrite H, IH].
Qed.

(** The loops of the build case append the [--tag] arguments, then the
    [--build-arg] pairs, then the dockerfile and the build path. *)
Lemma buildArgs_spec (Getenv : string -> string)
    (repositoriesSlice tagsSlice argsSlice : list string)
    (container tag path dockerfile : string) :
  buildArgs Getenv repositoriesSlice tagsSlice argsSlice container tag path dockerfile
  = ["build"]
      ++ tagArguments repositoriesSlice tagsSlice container tag
      ++ buildArgumentPairs Getenv argsSlice
      ++ ["--file"; (path ++ "/" ++ dockerfile)%string; path].
Proof.
  unfold buildArgs, tagArguments, buildArgumentPairs. cbv zeta.
  rewrite (fold_left_ext
             (fun args a => (args ++ ["--build-arg"]) ++ [(a ++ "=" ++ Getenv a)%string])
             (fun args a => args ++ ["--build-arg"; (a ++ "=" ++ Getenv a)%string]))
    by (intros; now rewrite <- app_assoc).
  rewrite fold_left_append.
  rewrite (fold_left_ext
             (fun args r =>
                fold_left (fun args t => (args ++ ["--tag"]) ++ [imagePath r container t])
                          tagsSlice ((args ++ ["--tag"]) ++ [imagePath r container tag]))
             (fun args r =>
                args ++ flat_map (fun t => ["--tag"; imagePath r container t])
                                 (tag :: tagsSlice))).
  - rewrite fold_left_append. rewrite <- !app_assoc. reflexivity.
  - intros a r.
    rewrite (fold_left_ext
               (fun args t => (args ++ ["--tag"]) ++ [imagePath r container t])
               (fun args t => args ++ ["--tag"; imagePath r container t]))
      by (intros; now rewrite <- app_assoc).
    rewrite fold_left_append. simpl. rewrite <- !app_assoc. reflexivity.
Qed.

(* ===================================================================== *)
(** * Configuration errors *)
(* ===================================================================== *)

(** C7. With an empty [repositories] flag the run is fatal in
    [validateRepositories], and with an action other than build, push and
    tag it is fatal at the latest in the default case of the switch; in both
    cases no command at all has been run. *)
Theorem C7_configuration_errors
    (engine : Engine) (json_Unmarshal : string -> option (list CredentialPtr))
    (p : Process) :
  (repositories (flags p) = "" ->
   snd (run engine json_Unmarshal p) = Fatal
   /\ commands (fst (run engine json_Unmarshal p)) = [])
  /\ (action (flags p) <> "build" -> action (flags p) <> "push" ->
      action (flags p) <> "tag" ->
      snd (run engine json_Unmarshal p) = Fatal
      /\ commands (fst (run engine json_Unmarshal p)) = []).
Proof.
  assert (Hempty : repositories (flags p) = "" ->
                   snd (run engine json_Unmarshal p) = Fatal
                   /\ commands (fst (run engine json_Unmarshal p)) = []).
  { intros H. unfold run, main. rewrite H. split; reflexivity. }
  split; [exact Hempty|].
  intros Hb Hp Ht.
  destruct (String.eqb_spec (repositories (flags p)) "") as [E|E]; [now apply Hempty|].
  apply String.eqb_neq in Hb, Hp, Ht, E.
  unfold run, main, validateRepositories, bind, log_Printf.
  rewrite Hb, Hp, Ht, E. split; reflexivity.
Qed.

(* ===================================================================== *)
(** * Invariants of a whole run *)
(* ===================================================================== *)

Ltac keeps_step :=
  lazymatch goal with
  | |- keeps _ (bind _ _) => apply keeps_bind; [|intros ?]
  | |- keeps _ (ret _) => apply keeps_ret
  | |- keeps _ (lift _) => apply keeps_lift
  | |- keeps _ (log_Printf _) => apply keeps_log
  | |- keeps _ (log_Fatal _) => apply keeps_fatal
  | |- keeps _ (index0 _) => apply keeps_index0
  | |- keeps _ (handleError _) => apply keeps_handleError
  | |- keeps _ (validateRepositories _) =>
      unfold validateRepositories
  | |- keeps _ (forRange _ _) => apply keeps_forRange; intros ?
  | |- keeps _ (forRangeFrom _ _ _) => apply keeps_forRangeFrom; intros ? ?
  | |- keeps _ (runCommand _ _ _) => apply keeps_runCommand
  | |- keeps _ (Run _ _) => apply keeps_Run
  | |- keeps _ (loginIfRequired _ _ _) => apply keeps_login; intros ? ?
  | |- keeps _ (if ?b then _ else _) => destruct b
  end.

Lemma isDocker_buildArgs (verb : string) (Getenv : string -> string)
    (rs ts ars : list string) (c tag path dockerfile dir : string) (att : bool) :
  isDocker verb
    (mkCmd "docker" (buildArgs Getenv rs ts ars c tag path dockerfile) dir att)
  = String.eqb "build" verb.
Proof. rewrite buildArgs_spec. reflexivity. Qed.

(** An invariant that survives every login of a known record and every
    command other than [docker login] survives the run. *)
Lemma keeps_main (engine : Engine)
    (json_Unmarshal : string -> option (list CredentialPtr)) (p : Process)
    (I : list Cmd -> Prop) :
  (forall c,
      In (Some c) (parseCredentials json_Unmarshal (Getenv p credentialsVariable)) ->
      closed I (loginCommand c)) ->
  (forall c, isDocker "login" c = false -> closed I c) ->
  keeps I (main engine json_Unmarshal p).
Proof.
  intros Hlogin Hother.
  unfold main, caseBuild, casePush, caseTag. cbv zeta.
  fold credentialsVariable.
  repeat keeps_step;
    try (apply Hother; first [reflexivity | apply isDocker_buildArgs]);
    try (now apply Hlogin).
Qed.

Lemma closed_Forall (R : Cmd -> Prop) (c : Cmd) : R c -> closed (Forall R) c.
Proof.
  intros H cs Hcs. apply Forall_app. split; [exact Hcs|]. now constructor.
Qed.

Lemma dockerCalls_not_verb (verb : string) (cs : list Cmd) :
  Forall (fun c => isDocker verb c = false) cs ->
  Forall (fun a => isVerb verb a = false)
         (map Args (filter (fun c => String.eqb (Name c) "docker") cs)).
Proof.
  induction 1 as [|c cs Hc Hcs IH]; simpl; [constructor|].
  unfold isDocker in Hc.
  destruct (String.eqb (Name c) "docker"); simpl in *; [|exact IH].
  constructor; assumption.
Qed.

(* ===================================================================== *)
(** * Credential input *)
(* ===================================================================== *)

Lemma parseCredentials_malformed
    (json_Unmarshal : string -> option (list CredentialPtr)) (credentialsJSON : string) :
  credentialsJSON = "" \/ json_Unmarshal credentialsJSON = None ->
  parseCredentials json_Unmarshal credentialsJSON = [].
Proof.
  intros [H|H]; unfold parseCredentials.
  - now rewrite H.
  - rewrite H. now destruct (String.eqb credentialsJSON "").
Qed.

(** C8. When the credentials variable is unset (or empty) or does not hold
    valid JSON, the credential list is empty and the run is the one of an
    empty JSON array: it is not ended by the input, every lookup returns
    none, [loginIfRequired] does nothing, and no [docker login] is run. *)
Theorem C8_malformed_credentials
    (engine : Engine) (json_Unmarshal : string -> option (list CredentialPtr))
    (p : Process) :
  let credentialsJSON := Getenv p "ESTAFETTE_CI_REPOSITORY_CREDENTIALS_JSON" in
  credentialsJSON = "" \/ json_Unmarshal credentialsJSON = None ->
  parseCredentials json_Unmarshal credentialsJSON = []
  /\ run engine json_Unmarshal p = run engine emptyArray p
  /\ (forall containerImage,
        getCredentialsForContainer
          (parseCredentials json_Unmarshal credentialsJSON) containerImage
        = Done None)
  /\ (forall containerImage tr,
        loginIfRequired engine
          (parseCredentials json_Unmarshal credentialsJSON) containerImage tr
        = (tr, Done tt))
  /\ Forall (fun a => isVerb "login" a = false)
            (dockerCalls (fst (run engine json_Unmarshal p))).
Proof.
  intros credentialsJSON H.
  pose proof (parseCredentials_malformed json_Unmarshal credentialsJSON H) as Hnil.
  split; [exact Hnil|].
  split.
  { unfold run, main. cbv zeta. fold credentialsJSON. rewrite Hnil.
    replace (parseCredentials emptyArray credentialsJSON)
      with (@nil CredentialPtr); [reflexivity|].
    unfold parseCredentials, emptyArray.
    now destruct (String.eqb credentialsJSON ""). }
  rewrite Hnil.
  split; [reflexivity|].
  split; [reflexivity|].
  apply dockerCalls_not_verb.
  assert (K : keeps (Forall (fun c => isDocker "login" c = false))
                    (main engine json_Unmarshal p)).
  { apply keeps_main.
    - unfold credentialsVariable. fold credentialsJSON. rewrite Hnil.
      intros c [].
    - intros c Hc. now apply closed_Forall. }
  specialize (K [] (Forall_nil _)).
  unfold run. destruct (main engine json_Unmarshal p []) as [tr' [[]| |]]; exact K.
Qed.

(* ===================================================================== *)
(** * Runs on which every command succeeds *)
(* ===================================================================== *)

Lemma engineOps_app (tr1 tr2 : Trace) :
  engineOps (tr1 ++ tr2) = engineOps tr1 ++ engineOps tr2.
Proof.
  unfold engineOps, dockerCalls.
  now rewrite commands_app, filter_app, map_app, filter_app.
Qed.

Lemma engineOps_log (tr : Trace) (l : string) : engineOps (tr ++ [Log l]) = engineOps tr.
Proof. rewrite engineOps_app. apply app_nil_r. Qed.

Lemma engineOps_exec (tr : Trace) (c : Cmd) :
  engineOps (tr ++ [Exec c]) = engineOps tr ++ opOf c.
Proof.
  rewrite engineOps_app. f_equal.
  unfold engineOps, dockerCalls, opOf. simpl.
  destruct (String.eqb (Name c) "docker"); simpl; [|reflexivity].
  destruct (isVerb "login" (Args c)); reflexivity.
Qed.

Lemma yields_ret : yields (ret tt) [].
Proof. intros tr. exists tr. split; [reflexivity|now rewrite app_nil_r]. Qed.

Lemma yields_log (l : string) : yields (log_Printf l) [].
Proof.
  intros tr. eexists. split; [reflexivity|].
  now rewrite engineOps_log, app_nil_r.
Qed.

Lemma yields_bind (m : M unit) (k : unit -> M unit) (o1 o2 : list (list string)) :
  yields m o1 -> yields (k tt) o2 -> yields (bind m k) (o1 ++ o2).
Proof.
  intros Hm Hk tr. unfold bind.
  destruct (Hm tr) as [tr1 [E1 O1]]. rewrite E1.
  destruct (Hk tr1) as [tr2 [E2 O2]].
  exists tr2. split; [exact E2|]. now rewrite O2, O1, app_assoc.
Qed.

Lemma yields_bind_ret {X} (a : X) (k : X -> M unit) (o : list (list string)) :
  yields (k a) o -> yields (bind (ret a) k) o.
Proof. intros H tr. exact (H tr). Qed.

Lemma yields_eq (m : M unit) (o o' : list (list string)) :
  yields m o -> o = o' -> yields m o'.
Proof. now intros H <-. Qed.

Lemma yields_forRange {X} (l : list X) (body : X -> M unit)
    (g : X -> list (list string)) :
  (forall x, yields (body x) (g x)) -> yields (forRange l body) (flat_map g l).
Proof.
  intros H. induction l as [|x rest IH]; simpl.
  - apply yields_ret.
  - apply yields_bind; [apply H|exact IH].
Qed.

Lemma yields_forRangeFrom {X} (i : nat) (l : list X) (body : nat -> X -> M unit)
    (g : nat -> X -> list (list string)) :
  (forall j x, yields (body j x) (g j x)) ->
  yields (forRangeFrom i l body) (flatMapFrom i g l).
Proof.
  intros H. revert i. induction l as [|x rest IH]; intros i; simpl.
  - apply yields_ret.
  - apply yields_bind; [apply H|apply IH].
Qed.

Section Success.

Variable engine : Engine.
Hypothesis engine_ok : forall tr c, engine tr c = None.

Lemma yields_exec (c : Cmd) : yields (bind (Run engine c) handleError) (opOf c).
Proof.
  intros tr. unfold bind, Run. rewrite engine_ok. simpl.
  eexists. split; [reflexivity|apply engineOps_exec].
Qed.

Lemma yields_runCommand (command : string) (args : list string) :
  yields (runCommand engine command args)
         (opOf (mkCmd command args "/estafette-work" true)).
Proof.
  unfold runCommand.
  apply (yields_bind _ _ [] _ (yields_log _)), yields_exec.
Qed.

Lemma yields_docker (args : list string) :
  isVerb "login" args = false ->
  yields (runCommand engine "docker" args) [args].
Proof.
  intros H. eapply yields_eq; [apply yields_runCommand|].
  unfold opOf. simpl. now rewrite H.
Qed.

Lemma yields_login (records : list ContainerRepositoryCredentialConfig)
    (containerImage : string) :
  yields (loginIfRequired engine (map Some records) containerImage) [].
Proof.
  intros tr.
  destruct (find (fun c => String.eqb (repositoryPortion containerImage) (Repository c))
                 records) as [c|] eqn:Hfind.
  - rewrite (loginIfRequired_some engine (map Some records) containerImage c tr)
      by (now rewrite getCredentials_find, Hfind).
    cbv zeta. rewrite engine_ok.
    eexists. split; [reflexivity|].
    rewrite engineOps_exec, engineOps_log. reflexivity.
  - rewrite (loginIfRequired_none engine (map Some records) containerImage tr)
      by (now rewrite getCredentials_find, Hfind).
    exists tr. split; [reflexivity|now rewrite app_nil_r].
Qed.

Ltac yields_step :=
  lazymatch goal with
  | |- yields (bind (ret _) _) _ => apply yields_bind_ret
  | |- yields (bind (Run _ _) _) _ => apply yields_exec
  | |- yields (bind _ _) _ => eapply yields_bind
  | |- yields (ret tt) _ => apply yields_ret
  | |- yields (log_Printf _) _ => apply yields_log
  | |- yields (runCommand _ _ _) _ => apply yields_runCommand
  | |- yields (loginIfRequired _ _ _) _ => apply yields_login
  end.

Variable records : list ContainerRepositoryCredentialConfig.

(** One step of the fan-out: tag, log in if required, push. *)
Lemma yields_tagAndPush (source target l1 l2 : string) :
  yields
    (log_Printf l1 ;;
     runCommand engine "docker" ["tag"; source; target] ;;
     loginIfRequired engine (map Some records) target ;;
     log_Printf l2 ;;
     runCommand engine "docker" ["push"; target])
    (tagAndPush source target).
Proof.
  eapply yields_eq; [repeat yields_step|reflexivity].
Qed.

Lemma yields_casePush (r0 : string) (rest tagsSlice : list string)
    (container tag : string) :
  yields
    (casePush engine (map Some records) (r0 :: rest) tagsSlice container tag)
    (pushPlan (imagePath r0 container tag) (r0 :: rest) tagsSlice container tag).
Proof.
  unfold casePush, pushPlan. cbv zeta. apply yields_bind_ret.
  apply yields_forRangeFrom. intros j r.
  apply yields_bind.
  - destruct (0 <? j)%nat; [|apply yields_ret].
    eapply yields_eq; [repeat yields_step|reflexivity].
  - eapply yields_eq.
    + yields_step; [yields_step|].
      yields_step; [yields_step|].
      yields_step; [yields_step|].
      apply yields_forRange
        with (g := fun t => tagAndPush (imagePath r0 container tag)
                                       (imagePath r container t)).
      intros t. apply yields_tagAndPush.
    + reflexivity.
Qed.

Lemma yields_caseTag (r0 : string) (rest tagsSlice : list string)
    (container tag : string) :
  yields
    (caseTag engine (map Some records) (r0 :: rest) tagsSlice container tag)
    (["pull"; imagePath r0 container tag]
       :: tagPlan (imagePath r0 container tag) (r0 :: rest) tagsSlice container tag).
Proof.
  unfold caseTag, tagPlan. cbv zeta. apply yields_bind_ret.
  eapply yields_eq.
  - yields_step; [yields_step|].
    yields_step; [yields_step|].
    yields_step; [yields_step|].
    apply yields_forRangeFrom
      with (g := fun i r =>
                   (if (0 <? i)%nat
                    then tagAndPush (imagePath r0 container tag)
                                    (imagePath r container tag)
                    else [])
                   ++ fanOut (imagePath r0 container tag) r container tagsSlice).
    intros j r. apply yields_bind.
    + destruct (0 <? j)%nat; [apply yields_tagAndPush|apply yields_ret].
    + apply yields_forRange
        with (g := fun t => tagAndPush (imagePath r0 container tag)
                                       (imagePath r container t)).
      intros t. apply yields_tagAndPush.
  - reflexivity.
Qed.

Lemma flat_map_nil {X Y} (l : list X) : flat_map (fun _ : X => @nil Y) l = [].
Proof. induction l; simpl; auto. Qed.

Lemma yields_caseBuild (Getenv : string -> string) (r0 : string)
    (rest tagsSlice copySlice argsSlice : list string)
    (container tag path dockerfile : string) :
  yields
    (caseBuild engine Getenv (map Some records) (r0 :: rest) tagsSlice
       copySlice argsSlice container tag path dockerfile)
    [buildArgs Getenv (r0 :: rest) tagsSlice argsSlice container tag path dockerfile].
Proof.
  unfold caseBuild. cbv zeta.
  eapply yields_eq.
  - yields_step; [yields_step|].
    yields_step; [yields_step|].
    yields_step.
    { apply yields_forRange with (g := fun _ => []).
      intros c. eapply yields_eq; [repeat yields_step|reflexivity]. }
    apply yields_bind_ret.
    yields_step; [yields_step|].
    yields_step; [yields_step|].
    apply yields_docker.
    rewrite buildArgs_spec. reflexivity.
  - rewrite flat_map_nil. reflexivity.
Qed.

End Success.

(* ===================================================================== *)
(** * [main], action by action *)
(* ===================================================================== *)

Section Main.

Variable engine : Engine.
Variable json_Unmarshal : string -> option (list CredentialPtr).
Variable p : Process.

Lemma splitList_not_nil (flag : string) : flag <> "" -> splitList flag <> [].
Proof.
  intros H. unfold splitList. apply String.eqb_neq in H. rewrite H.
  apply Split_not_nil.
Qed.

Lemma main_no_repositories (tr : Trace) :
  repositories (flags p) = "" ->
  exists line,
    main engine json_Unmarshal p tr = ((tr ++ [Log (startLine p)]) ++ [Log line], Fatal).
Proof.
  intros H. unfold main. rewrite H. eexists. reflexivity.
Qed.

Lemma main_build (tr : Trace) :
  action (flags p) = "build" -> repositories (flags p) <> "" ->
  main engine json_Unmarshal p tr
  = caseBuild engine (Getenv p) (credentialsOf json_Unmarshal p)
      (splitList (repositories (flags p))) (splitList (tags (flags p)))
      (splitList (copy (flags p))) (splitList (args (flags p)))
      (containerOf p) (defaultTagOf p) (path (flags p)) (dockerfile (flags p))
      (tr ++ [Log (startLine p)]).
Proof.
  intros Ha Hr. apply String.eqb_neq in Hr.
  unfold main, validateRepositories, bind, log_Printf. rewrite Ha, Hr.
  reflexivity.
Qed.

Lemma main_push (tr : Trace) :
  action (flags p) = "push" -> repositories (flags p) <> "" ->
  main engine json_Unmarshal p tr
  = casePush engine (credentialsOf json_Unmarshal p)
      (splitList (repositories (flags p))) (splitList (tags (flags p)))
      (containerOf p) (defaultTagOf p)
      (tr ++ [Log (startLine p)]).
Proof.
  intros Ha Hr. apply String.eqb_neq in Hr.
  unfold main, validateRepositories, bind, log_Printf. rewrite Ha, Hr.
  reflexivity.
Qed.

Lemma main_tag (tr : Trace) :
  action (flags p) = "tag" -> repositories (flags p) <> "" ->
  main engine json_Unmarshal p tr
  = caseTag engine (credentialsOf json_Unmarshal p)
      (splitList (repositories (flags p))) (splitList (tags (flags p)))
      (containerOf p) (defaultTagOf p)
      (tr ++ [Log (startLine p)]).
Proof.
  intros Ha Hr. apply String.eqb_neq in Hr.
  unfold main, validateRepositories, bind, log_Printf. rewrite Ha, Hr.
  reflexivity.
Qed.

(** What [yields] says about a run. *)
Lemma yields_run (m : M unit) (ops : list (list string)) (l : string) :
  yields m ops ->
  snd (m [Log l]) = Done tt /\ engineOps (fst (m [Log l])) = ops.
Proof.
  intros H. destruct (H [Log l]) as [tr' [E O]]. rewrite E. split; [reflexivity|exact O].
Qed.

Section AllSucceed.

Hypothesis engine_ok : forall tr c, engine tr c = None.
Variable records : list ContainerRepositoryCredentialConfig.
Hypothesis credentials_ok : credentialsOf json_Unmarshal p = map Some records.
Hypothesis repositories_ok : repositories (flags p) <> "".

Lemma run_push :
  action (flags p) = "push" ->
  snd (run engine json_Unmarshal p) = Done tt
  /\ engineOps (fst (run engine json_Unmarshal p))
     = pushPlan (sourceOf p) (splitList (repositories (flags p)))
                (splitList (tags (flags p))) (containerOf p) (defaultTagOf p).
Proof.
  intros Ha. unfold run. rewrite (main_push [] Ha repositories_ok).
  rewrite credentials_ok. unfold sourceOf.
  pose proof (splitList_not_nil _ repositories_ok) as Hne.
  destruct (splitList (repositories (flags p))) as [|r0 rest]; [contradiction|].
  apply yields_run, yields_casePush, engine_ok.
Qed.

Lemma run_tag :
  action (flags p) = "tag" ->
  snd (run engine json_Unmarshal p) = Done tt
  /\ engineOps (fst (run engine json_Unmarshal p))
     = ["pull"; sourceOf p]
         :: tagPlan (sourceOf p) (splitList (repositories (flags p)))
                    (splitList (tags (flags p))) (containerOf p) (defaultTagOf p).
Proof.
  intros Ha. unfold run. rewrite (main_tag [] Ha repositories_ok).
  rewrite credentials_ok. unfold sourceOf.
  pose proof (splitList_not_nil _ repositories_ok) as Hne.
  destruct (splitList (repositories (flags p))) as [|r0 rest]; [contradiction|].
  apply yields_run, yields_caseTag, engine_ok.
Qed.

Lemma run_build :
  action (flags p) = "build" ->
  snd (run engine json_Unmarshal p) = Done tt
  /\ engineOps (fst (run engine json_Unmarshal p)) = [Args (buildCommand p)].
Proof.
  intros Ha. unfold run. rewrite (main_build [] Ha repositories_ok).
  rewrite credentials_ok. unfold buildCommand. cbn [Args].
  rewrite <- buildArgs_spec.
  pose proof (splitList_not_nil _ repositories_ok) as Hne.
  destruct (splitList (repositories (flags p))) as [|r0 rest]; [contradiction|].
  apply yields_run, yields_caseBuild, engine_ok.
Qed.

End AllSucceed.

End Main.

(* ===================================================================== *)
(** * The push action *)
(* ===================================================================== *)

(** C1, as the specification states it: the expected sequence (repository
    [b] first, repository [a] pushed twice without a tag in between) is not
    the one the push case produces for the example. *)
Lemma C1_expected_sequence_refuted :
  snd (run succeeds noJSON pushExample) = Done tt
  /\ engineOps (fst (run succeeds noJSON pushExample)) <> expectedPushExample.
Proof.
  split; [vm_compute; reflexivity|].
  intros H. vm_compute in H. discriminate H.
Qed.

(** C1, amended. For the push action with repositories [a] and [b], the tag
    [dev], container [app] and default tag [1.0], on a run where every
    command succeeds, the engine operations are, in this order:
    push(a/app:1.0), tag(a/app:1.0 -> a/app:dev), push(a/app:dev),
    tag(a/app:1.0 -> b/app:1.0), push(b/app:1.0),
    tag(a/app:1.0 -> b/app:dev), push(b/app:dev).  The repositories are
    served in the order of the list, only the default tag of the first
    repository is pushed without a tag operation before it, and logins
    (left out of the engine operations) depend on the credentials. *)
Theorem C1_push_example
    (engine : Engine) (json_Unmarshal : string -> option (list CredentialPtr))
    (p : Process) (records : list ContainerRepositoryCredentialConfig) :
  (forall tr c, engine tr c = None) ->
  credentialsOf json_Unmarshal p = map Some records ->
  action (flags p) = "push" ->
  repositories (flags p) = "a,b" ->
  tags (flags p) = "dev" ->
  container (flags p) = "app" ->
  defaultTagOf p = "1.0" ->
  snd (run engine json_Unmarshal p) = Done tt
  /\ engineOps (fst (run engine json_Unmarshal p)) = actualPushExample.
Proof.
  intros Hok Hcred Ha Hr Ht Hc Hd.
  assert (Hne : repositories (flags p) <> "") by (rewrite Hr; discriminate).
  destruct (run_push engine json_Unmarshal p Hok records Hcred Hne Ha) as [Hdone Hops].
  split; [exact Hdone|].
  rewrite Hops. unfold sourceOf, containerOf. rewrite Hr, Ht, Hc, Hd.
  reflexivity.
Qed.

(* ===================================================================== *)
(** * The tag action *)
(* ===================================================================== *)

Lemma hoare_bind_ret {X Y} (P Q E : list Cmd -> Prop) (a : X) (k : X -> M Y) :
  hoare P (k a) Q E -> hoare P (bind (ret a) k) Q E.
Proof. intros H tr HP. exact (H tr HP). Qed.

Lemma keeps_bind_ret {X Y} (I : list Cmd -> Prop) (a : X) (k : X -> M Y) :
  keeps I (k a) -> keeps I (bind (ret a) k).
Proof. apply hoare_bind_ret. Qed.

Lemma hoare_runCommand (engine : Engine) (P Q : list Cmd -> Prop)
    (command : string) (args : list string) :
  (forall cs, P cs -> Q (cs ++ [mkCmd command args "/estafette-work" true])) ->
  hoare P (runCommand engine command args) Q Q.
Proof.
  intros H. unfold runCommand.
  apply hoare_bind with (Q := P); [apply hoare_log|intros _].
  apply hoare_bind with (Q := Q); [now apply hoare_Run|intros err].
  apply hoare_handleError.
Qed.

Lemma closed_pulled (pull c : Cmd) : closed (pulled pull) c.
Proof.
  intros cs (pre & post & -> & Hpre).
  exists pre, (post ++ [c]). split; [|exact Hpre].
  now rewrite <- app_assoc.
Qed.

Lemma noTagPush_login (c : ContainerRepositoryCredentialConfig) :
  noTagPush (loginCommand c).
Proof. split; reflexivity. Qed.

Lemma noTagPush_pull (source : string) : noTagPush (pullCommand source).
Proof. split; reflexivity. Qed.

(** Where a tag or a push stands in a trace that pulled first. *)
Lemma pulledFirst_order (pull : Cmd) (cs : list Cmd) :
  noTagPush pull -> pulledFirst pull cs ->
  forall pre c post,
    cs = pre ++ c :: post ->
    isDocker "tag" c = true \/ isDocker "push" c = true ->
    In pull pre.
Proof.
  intros Hpull Hcs pre c post E Hc.
  assert (Hno : ~ noTagPush c).
  { intros [H1 H2]. destruct Hc as [Hc|Hc]; congruence. }
  destruct Hcs as [Hclean|(pre0 & post0 & E0 & Hpre0)].
  - exfalso. apply Hno. rewrite Forall_forall in Hclean. apply Hclean.
    rewrite E. apply in_elt.
  - rewrite E0 in E. apply app_eq_app in E as [l [[E1 E2]|[E1 E2]]].
    + destruct l as [|x l]; simpl in E2.
      * injection E2 as <- _. contradiction.
      * injection E2 as <- _. exfalso. apply Hno.
        rewrite Forall_forall in Hpre0. apply Hpre0.
        rewrite E1. apply in_elt.
    + destruct l as [|x l]; simpl in E2.
      * injection E2 as -> _. contradiction.
      * injection E2 as <- _. rewrite E1. apply in_elt.
Qed.

Section Tag.

Variable engine : Engine.

(** The loop of the tag case keeps whatever survives tags and pushes. *)
Lemma keeps_tagLoop (I : list Cmd -> Prop) (credentials : list CredentialPtr)
    (source : string) (i : nat) (repositoriesSlice tagsSlice : list string)
    (container tag : string) :
  (forall c, closed I c) ->
  keeps I
    (forRangeFrom i repositoriesSlice (fun i r =>
       let targetContainerPath := imagePath r container tag in
       (if (0 <? i)%nat then
          log_Printf ("Tagging container image " ++ targetContainerPath) ;;
          runCommand engine "docker" ["tag"; source; targetContainerPath] ;;
          loginIfRequired engine credentials targetContainerPath ;;
          log_Printf ("Pushing container image " ++ targetContainerPath) ;;
          runCommand engine "docker" ["push"; targetContainerPath]
        else ret tt) ;;
       forRange tagsSlice (fun t =>
         let targetContainerPath := imagePath r container t in
         log_Printf ("Tagging container image " ++ targetContainerPath) ;;
         runCommand engine "docker" ["tag"; source; targetContainerPath] ;;
         loginIfRequired engine credentials targetContainerPath ;;
         log_Printf ("Pushing container image " ++ targetContainerPath) ;;
         runCommand engine "docker" ["push"; targetContainerPath]))).
Proof.
  intros H. cbv zeta. repeat keeps_step; apply H.
Qed.

Lemma caseTag_pulledFirst (credentials : list CredentialPtr)
    (repositoriesSlice tagsSlice : list string) (container tag : string) :
  let pull := pullCommand (imagePath (hd "" repositoriesSlice) container tag) in
  hoare (Forall noTagPush)
        (caseTag engine credentials repositoriesSlice tagsSlice container tag)
        (pulledFirst pull) (pulledFirst pull).
Proof.
  intros pull. unfold caseTag. cbv zeta.
  destruct repositoriesSlice as [|r0 rest]; simpl index0.
  { intros tr H. left. exact H. }
  apply hoare_bind_ret. simpl hd in pull.
  apply hoare_bind with (Q := Forall noTagPush).
  { apply hoare_weaken with (P := Forall noTagPush) (Q := Forall noTagPush)
                            (E := Forall noTagPush); auto; [|now left].
    apply keeps_login. intros c _. apply closed_Forall, noTagPush_login. }
  intros _.
  apply hoare_bind with (Q := Forall noTagPush); [apply hoare_log|intros _].
  apply hoare_bind with (Q := pulled pull).
  { apply hoare_weaken with (P := Forall noTagPush) (Q := pulled pull)
                            (E := pulled pull); auto; [|now right].
    apply hoare_runCommand. intros cs Hcs. exists cs, []. now split. }
  intros _.
  apply hoare_weaken with (P := pulled pull) (Q := pulled pull) (E := pulled pull);
    auto; try (now right).
  apply keeps_tagLoop. intros c. apply closed_pulled.
Qed.

End Tag.

(** C6. In the tag action the pull of the source image (the first
    repository with the container name and the sanitized default tag) comes
    before every tag and every push: in the commands of any run, a [docker
    tag] or [docker push] has that pull before it.  When every command
    succeeds, the engine operations are the pull followed by the fan-out in
    which the default tag is tagged and pushed only for the repositories at
    an index greater than 0, and the explicit tags for every repository. *)
Theorem C6_tag_pulls_first
    (engine : Engine) (json_Unmarshal : string -> option (list CredentialPtr))
    (p : Process) :
  action (flags p) = "tag" ->
  (forall pre c post,
      commands (fst (run engine json_Unmarshal p)) = pre ++ c :: post ->
      isDocker "tag" c = true \/ isDocker "push" c = true ->
      In (pullCommand (sourceOf p)) pre)
  /\ ((forall tr c, engine tr c = None) ->
      repositories (flags p) <> "" ->
      forall records,
        credentialsOf json_Unmarshal p = map Some records ->
        snd (run engine json_Unmarshal p) = Done tt
        /\ engineOps (fst (run engine json_Unmarshal p))
           = ["pull"; sourceOf p]
               :: flatMapFrom 0
                    (fun i r =>
                       (if (0 <? i)%nat
                        then [ ["tag"; sourceOf p;
                                imagePath r (containerOf p) (defaultTagOf p)];
                               ["push"; imagePath r (containerOf p) (defaultTagOf p)] ]
                        else [])
                       ++ flat_map
                            (fun t =>
                               [ ["tag"; sourceOf p; imagePath r (containerOf p) t];
                                 ["push"; imagePath r (containerOf p) t] ])
                            (splitList (tags (flags p))))
                    (splitList (repositories (flags p)))).
Proof.
  intros Ha. split.
  - apply pulledFirst_order; [apply noTagPush_pull|].
    unfold run.
    destruct (String.eqb_spec (repositories (flags p)) "") as [Hr|Hr].
    + destruct (main_no_repositories engine json_Unmarshal p [] Hr) as [line E].
      rewrite E. left. constructor.
    + rewrite (main_tag engine json_Unmarshal p [] Ha Hr).
      pose proof (caseTag_pulledFirst engine (credentialsOf json_Unmarshal p)
                    (splitList (repositories (flags p))) (splitList (tags (flags p)))
                    (containerOf p) (defaultTagOf p)) as H.
      cbv zeta in H. specialize (H ([] ++ [Log (startLine p)]) (Forall_nil _)).
      fold (sourceOf p) in H.
      destruct (caseTag _ _ _ _ _ _ _) as [tr' [[]| |]]; exact H.
  - intros Hok Hr records Hcred.
    exact (run_tag engine json_Unmarshal p Hok records Hcred Hr Ha).
Qed.

(** C10. In the tag action with exactly one repository and no tags, every
    command of a run is the pull of the source image or the login of a
    known credential record; none is a [docker tag] or a [docker push].
    When every command succeeds the run returns and the pull is its only
    engine operation. *)
Theorem C10_tag_single_repository
    (engine : Engine) (json_Unmarshal : string -> option (list CredentialPtr))
    (p : Process) (r : string) :
  action (flags p) = "tag" ->
  splitList (repositories (flags p)) = [r] ->
  tags (flags p) = "" ->
  Forall (fun c =>
            (c = pullCommand (imagePath r (containerOf p) (defaultTagOf p))
             \/ exists record,
                  In (Some record) (credentialsOf json_Unmarshal p)
                  /\ c = loginCommand record)
            /\ isDocker "tag" c = false /\ isDocker "push" c = false)
         (commands (fst (run engine json_Unmarshal p)))
  /\ ((forall tr c, engine tr c = None) ->
      forall records,
        credentialsOf json_Unmarshal p = map Some records ->
        snd (run engine json_Unmarshal p) = Done tt
        /\ engineOps (fst (run engine json_Unmarshal p))
           = [["pull"; imagePath r (containerOf p) (defaultTagOf p)]]).
Proof.
  intros Ha Hrs Ht.
  assert (Hr : repositories (flags p) <> "").
  { intros E. unfold splitList in Hrs. rewrite E in Hrs. discriminate Hrs. }
  split.
  - unfold run. rewrite (main_tag engine json_Unmarshal p [] Ha Hr).
    rewrite Hrs, Ht.
    set (R := fun c : Cmd => _).
    assert (K : keeps (Forall R)
                  (caseTag engine (credentialsOf json_Unmarshal p) [r] (splitList "")
                     (containerOf p) (defaultTagOf p))).
    { unfold caseTag. cbn [index0 forRangeFrom splitList String.eqb forRange Nat.ltb Nat.leb].
      cbv zeta. apply keeps_bind_ret. repeat keeps_step.
      - apply closed_Forall. unfold R. split; [|split; reflexivity].
        right. exists c. now split.
      - apply closed_Forall. unfold R. split; [|split; reflexivity].
        now left. }
    specialize (K ([] ++ [Log (startLine p)]) (Forall_nil _)).
    destruct (caseTag _ _ _ _ _ _ _) as [tr' [[]| |]]; exact K.
  - intros Hok records Hcred.
    destruct (run_tag engine json_Unmarshal p Hok records Hcred Hr Ha) as [Hdone Hops].
    split; [exact Hdone|].
    rewrite Hops. unfold sourceOf. rewrite Hrs, Ht. reflexivity.
Qed.

(* ===================================================================== *)
(** * The build action *)
(* ===================================================================== *)

Lemma builds_app (cs1 cs2 : list Cmd) : builds (cs1 ++ cs2) = builds cs1 ++ builds cs2.
Proof. apply filter_app. Qed.

Lemma closed_no_builds (c : Cmd) :
  isDocker "build" c = false -> closed (fun cs => builds cs = []) c.
Proof.
  intros H cs Hcs. rewrite builds_app, Hcs. unfold builds. simpl. now rewrite H.
Qed.

Section Build.

Variable engine : Engine.

Lemma caseBuild_builds (Getenv : string -> string)
    (credentials : list CredentialPtr)
    (repositoriesSlice tagsSlice copySlice argsSlice : list string)
    (container tag path dockerfile : string) :
  let build :=
    mkCmd "docker"
      (buildArgs Getenv repositoriesSlice tagsSlice argsSlice container tag
         path dockerfile)
      "/estafette-work" true in
  hoare (fun cs => builds cs = [])
    (caseBuild engine Getenv credentials repositoriesSlice tagsSlice copySlice
       argsSlice container tag path dockerfile)
    (fun cs => builds cs = [build])
    (fun cs => builds cs = [] \/ builds cs = [build]).
Proof.
  intros build. unfold caseBuild. cbv zeta.
  set (I := fun cs => builds cs = []).
  set (E := fun cs => builds cs = [] \/ builds cs = [build]).
  assert (W : forall X (m : M X), keeps I m -> hoare I m I E).
  { intros X m K. apply hoare_weaken with (P := I) (Q := I) (E := I); auto.
    intros cs H. now left. }
  apply hoare_bind with (Q := I); [apply W; keeps_step|intros _].
  apply hoare_bind with (Q := I).
  { apply W. keeps_step. now apply closed_no_builds. }
  intros _.
  apply hoare_bind with (Q := I).
  { apply W. repeat keeps_step. now apply closed_no_builds. }
  intros _.
  apply hoare_bind with (Q := I); [apply W; keeps_step|intros r0].
  apply hoare_bind with (Q := I).
  { apply W. keeps_step. now apply closed_no_builds. }
  intros _.
  apply hoare_bind with (Q := I); [apply W; keeps_step|intros _].
  apply hoare_weaken with (P := I) (Q := fun cs => builds cs = [build])
                          (E := fun cs => builds cs = [build]); auto;
    [|intros cs H; now right].
  apply hoare_runCommand. intros cs Hcs.
  assert (Hb : isDocker "build" build = true)
    by apply (isDocker_buildArgs "build").
  rewrite builds_app, Hcs. fold build.
  unfold builds. cbn [filter app]. now rewrite Hb.
Qed.

End Build.

(** C9. In the build action [docker build] is invoked at most once, and
    when every command succeeds exactly once.  Its arguments are [build],
    then one [--tag] argument for every pair of a repository and a tag (the
    sanitized default tag first, then the explicit tags) in the order of the
    two lists, then one [--build-arg] pair [name=value] for every requested
    build argument with the value of the environment variable of that name,
    then [--file], the dockerfile under the build path, and the build
    path. *)
Theorem C9_build_arguments
    (engine : Engine) (json_Unmarshal : string -> option (list CredentialPtr))
    (p : Process) :
  action (flags p) = "build" ->
  let build :=
    mkCmd "docker"
      (["build"]
         ++ flat_map
              (fun r =>
                 flat_map (fun t => ["--tag"; imagePath r (containerOf p) t])
                          (defaultTagOf p :: splitList (tags (flags p))))
              (splitList (repositories (flags p)))
         ++ flat_map
              (fun a => ["--build-arg"; (a ++ "=" ++ Getenv p a)%string])
              (splitList (args (flags p)))
         ++ ["--file"; (path (flags p) ++ "/" ++ dockerfile (flags p))%string;
             path (flags p)])
      "/estafette-work" true in
  (builds (commands (fst (run engine json_Unmarshal p))) = []
   \/ builds (commands (fst (run engine json_Unmarshal p))) = [build])
  /\ ((forall tr c, engine tr c = None) ->
      repositories (flags p) <> "" ->
      forall records,
        credentialsOf json_Unmarshal p = map Some records ->
        snd (run engine json_Unmarshal p) = Done tt
        /\ engineOps (fst (run engine json_Unmarshal p)) = [Args build]).
Proof.
  intros Ha build.
  change build with (buildCommand p). clear build.
  split.
  - unfold run.
    destruct (String.eqb_spec (repositories (flags p)) "") as [Hr|Hr].
    + destruct (main_no_repositories engine json_Unmarshal p [] Hr) as [line E].
      rewrite E. now left.
    + rewrite (main_build engine json_Unmarshal p [] Ha Hr).
      pose proof (caseBuild_builds engine (Getenv p) (credentialsOf json_Unmarshal p)
                    (splitList (repositories (flags p))) (splitList (tags (flags p)))
                    (splitList (copy (flags p))) (splitList (args (flags p)))
                    (containerOf p) (defaultTagOf p) (path (flags p))
                    (dockerfile (flags p))) as H.
      cbv zeta in H. rewrite buildArgs_spec in H. fold (buildCommand p) in H.
      specialize (H ([] ++ [Log (startLine p)]) eq_refl).
      destruct (caseBuild _ _ _ _ _ _ _ _ _ _ _ _) as [tr' [[]| |]];
        [now right|exact H|exact H].
  - intros Hok Hr records Hcred.
    exact (run_build engine json_Unmarshal p Hok records Hcred Hr Ha).
Qed.

(* ===================================================================== *)
(** * The theorems at the example runs *)
(* ===================================================================== *)

Lemma succeeds_ok : forall (tr : Trace) (c : Cmd), succeeds tr c = None.
Proof. intros tr c. reflexivity. Defined.

(** The push example with the amended sequence. *)
Lemma C1_push_example_witness :
  snd (run succeeds noJSON pushExample) = Done tt
  /\ engineOps (fst (run succeeds noJSON pushExample)) = actualPushExample.
Proof.
  apply (C1_push_example succeeds noJSON pushExample []);
    first [exact succeeds_ok | reflexivity].
Defined.

(** The resolver on two records: the second one matches. *)
Lemma C4_resolver_witness :
  getCredentialsForContainer
    (map Some [estafetteCredential; extensionsCredential]) "extensions/docker:1.0"
  = Done (Some extensionsCredential)
  /\ getCredentialsForContainer
       (map Some [estafetteCredential; extensionsCredential]) "docker.io/other/app:1.0"
     = Done None.
Proof.
  split.
  - apply (proj2 (proj2 (proj2
             (C4_resolver_first_match [estafetteCredential; extensionsCredential]
                "extensions/docker:1.0")))
             [estafetteCredential] extensionsCredential []).
    + reflexivity.
    + intros d [<-|[]]. discriminate.
    + reflexivity.
  - apply (proj1 (proj2 (proj2
             (C4_resolver_first_match [estafetteCredential; extensionsCredential]
                "docker.io/other/app:1.0")))).
    intros c [<-|[<-|[]]]; discriminate.
Defined.

(** A login with a registry host, a login without one, and no login. *)
Lemma C5_login_witness :
  commands (fst (loginIfRequired succeeds [Some estafetteCredential; Some extensionsCredential]
                   "docker.io/estafette/app:1.0" []))
  = [mkCmd "docker" ["login"; "--username"; "user"; "--password"; "secret"; "docker.io"]
       "" false]
  /\ commands (fst (loginIfRequired succeeds [Some estafetteCredential; Some extensionsCredential]
                      "extensions/docker:1.0" []))
     = [mkCmd "docker" ["login"; "--username"; "bot"; "--password"; "token"] "" false]
  /\ loginIfRequired succeeds [Some estafetteCredential; Some extensionsCredential]
       "docker.io/other/app:1.0" []
     = ([], Done tt).
Proof.
  split; [|split].
  - exact (proj1 (proj2 (C5_login_if_required succeeds
                           [Some estafetteCredential; Some extensionsCredential]
                           "docker.io/estafette/app:1.0" [])
                        estafetteCredential eq_refl)).
  - exact (proj1 (proj2 (C5_login_if_required succeeds
                           [Some estafetteCredential; Some extensionsCredential]
                           "extensions/docker:1.0" [])
                        extensionsCredential eq_refl)).
  - exact (proj1 (C5_login_if_required succeeds
                    [Some estafetteCredential; Some extensionsCredential]
                    "docker.io/other/app:1.0" [])
                 eq_refl).
Defined.

(** The tag example: the first tag has the pull before it, and the
    operations are the pull and the fan-out. *)
Lemma C6_tag_witness :
  In (pullCommand (sourceOf tagExample)) [docker ["pull"; "a/app:1.0"]]
  /\ snd (run succeeds twoCredentials tagExample) = Done tt
  /\ engineOps (fst (run succeeds twoCredentials tagExample))
     = [ ["pull"; "a/app:1.0"];
         ["tag"; "a/app:1.0"; "a/app:dev"]; ["push"; "a/app:dev"];
         ["tag"; "a/app:1.0"; "b/app:1.0"]; ["push"; "b/app:1.0"];
         ["tag"; "a/app:1.0"; "b/app:dev"]; ["push"; "b/app:dev"] ].
Proof.
  split.
  - apply (proj1 (C6_tag_pulls_first succeeds twoCredentials tagExample eq_refl)
             [docker ["pull"; "a/app:1.0"]]
             (docker ["tag"; "a/app:1.0"; "a/app:dev"])
             [docker ["push"; "a/app:dev"];
              docker ["tag"; "a/app:1.0"; "b/app:1.0"];
              docker ["push"; "b/app:1.0"];
              docker ["tag"; "a/app:1.0"; "b/app:dev"];
              docker ["push"; "b/app:dev"]]).
    + reflexivity.
    + left. reflexivity.
  - apply (proj2 (C6_tag_pulls_first succeeds twoCredentials tagExample eq_refl)
             succeeds_ok)
      with (records := [estafetteCredential; extensionsCredential]);
      [discriminate|reflexivity].
Defined.

(** Both configuration errors. *)
Lemma C7_configuration_witness :
  (snd (run succeeds twoCredentials noRepositoriesExample) = Fatal
   /\ commands (fst (run succeeds twoCredentials noRepositoriesExample)) = [])
  /\ (snd (run succeeds twoCredentials deployExample) = Fatal
      /\ commands (fst (run succeeds twoCredentials deployExample)) = []).
Proof.
  split.
  - exact (proj1 (C7_configuration_errors succeeds twoCredentials noRepositoriesExample)
                 eq_refl).
  - apply (proj2 (C7_configuration_errors succeeds twoCredentials deployExample));
      discriminate.
Defined.

(** The push example has no credential input; the tag example has input
    that is not valid JSON for the decoder [noJSON]. *)
Lemma C8_credentials_witness :
  run succeeds twoCredentials pushExample = run succeeds emptyArray pushExample
  /\ run succeeds noJSON tagExample = run succeeds emptyArray tagExample.
Proof.
  split.
  - exact (proj1 (proj2 (C8_malformed_credentials succeeds twoCredentials pushExample
                           (or_introl eq_refl)))).
  - exact (proj1 (proj2 (C8_malformed_credentials succeeds noJSON tagExample
                           (or_intror eq_refl)))).
Defined.

(** The build example. *)
Lemma C9_build_witness :
  snd (run succeeds twoCredentials buildExample) = Done tt
  /\ engineOps (fst (run succeeds twoCredentials buildExample))
     = [ ["build"; "--tag"; "a/app:1.0"; "--tag"; "a/app:dev";
          "--tag"; "b/app:1.0"; "--tag"; "b/app:dev";
          "--build-arg"; "GOOS=linux";
          "--file"; "publish/Dockerfile"; "publish"] ].
Proof.
  apply (proj2 (C9_build_arguments succeeds twoCredentials buildExample eq_refl)
           succeeds_ok)
    with (records := [estafetteCredential; extensionsCredential]);
    [discriminate|reflexivity].
Defined.

(** The tag action on one repository without tags: a login and the pull. *)
Lemma C10_tag_single_witness :
  commands (fst (run succeeds twoCredentials tagOnlyExample))
  = [loginCommand extensionsCredential; docker ["pull"; "extensions/docker:1.0"]]
  /\ Forall (fun c => isDocker "tag" c = false /\ isDocker "push" c = false)
            (commands (fst (run succeeds twoCredentials tagOnlyExample))).
Proof.
  split; [reflexivity|].
  eapply Forall_impl;
    [|exact (proj1 (C10_tag_single_repository succeeds twoCredentials tagOnlyExample
                      "extensions" eq_refl eq_refl eq_refl))].
  intros c H. exact (proj2 H).
Defined.

(* ===================================================================== *)
(** * Further properties of the pure functions *)
(* ===================================================================== *)

(** X1. [contains] decides membership in the slice. *)
Theorem X1_contains_In (values : list string) (value : string) :
  contains values value = true <-> In value values.
Proof.
  induction values as [|v rest IH]; simpl.
  - split; [discriminate|contradiction].
  - destruct (String.eqb_spec v value) as [E|E].
    + split; [now left|reflexivity].
    + rewrite IH. split; [now right|]. intros [H|H]; [contradiction|exact H].
Qed.

Lemma Split_no_sep_elements (sep : ascii) (s : string) :
  Forall (fun e => allBytes (fun c => negb (Ascii.eqb c sep)) e = true)
         (strings.Split s sep).
Proof.
  induction s as [|c rest IH]; simpl.
  - repeat constructor.
  - destruct (Ascii.eqb c sep) eqn:Hc.
    + constructor; [reflexivity|exact IH].
    + destruct (strings.Split rest sep) as [|hd tl]; simpl.
      * repeat constructor. simpl. now rewrite Hc.
      * inversion IH as [|? ? Hhd Htl]; subst.
        constructor; [|exact Htl]. simpl. now rewrite Hc, Hhd.
Qed.

(** X2. A list flag is split without loss: joining the slice with commas
    gives the flag back, no element holds a comma, and the slice is empty
    for the empty flag only. *)
Theorem X2_splitList_round_trip (flag : string) :
  strings.Join (splitList flag) "," = flag
  /\ Forall (fun e => noComma e = true) (splitList flag)
  /\ (splitList flag = [] <-> flag = "").
Proof.
  unfold splitList.
  destruct (String.eqb_spec flag "") as [E|E].
  - subst. repeat split; auto.
  - split; [apply (Join_Split ",")|].
    split; [apply Split_no_sep_elements|].
    split; [intros H; now apply Split_not_nil in H|contradiction].
Qed.

Lemma scan_length (b : bool) (s : string) :
  String.length (regexp.scan reg "-" b s) <= String.length s.
Proof.
  revert b. induction s as [|c rest IH]; intros b; [simpl; lia|].
  rewrite scan_cons. pose proof (IH true). pose proof (IH false).
  destruct (illegal c), b; simpl; lia.
Qed.

(** X3. The sanitized build version holds bytes legal in a tag only, is
    never longer than the build version, and equals the build version
    exactly when the build version holds legal bytes only; nothing is cut
    off, however long the string is. *)
Theorem X3_tidy_legal_short_fixed (buildVersion : string) :
  allBytes legal (tidyBuildVersionAsTag buildVersion) = true
  /\ String.length (tidyBuildVersionAsTag buildVersion) <= String.length buildVersion
  /\ (tidyBuildVersionAsTag buildVersion = buildVersion
      <-> allBytes legal buildVersion = true).
Proof.
  unfold tidyBuildVersionAsTag, regexp.ReplaceAllString.
  split; [apply scan_is_legal|].
  split; [apply scan_length|].
  split.
  - intros H. rewrite <- H. apply scan_is_legal.
  - apply scan_legal.
Qed.

(** X4. The rule of the source comment that a tag may not start with a
    period or a dash is not enforced: a build version starting with a
    period, a dash or an illegal byte gives a tag starting with a period or
    a dash. *)
Theorem X4_tidy_keeps_leading_period_or_dash (c : ascii) (rest : string) :
  c = "."%char \/ c = "-"%char \/ illegal c = true ->
  exists t,
    tidyBuildVersionAsTag (String c rest) = String "." t
    \/ tidyBuildVersionAsTag (String c rest) = String "-" t.
Proof.
  intros H. unfold tidyBuildVersionAsTag, regexp.ReplaceAllString.
  rewrite scan_cons.
  destruct (illegal c) eqn:Hc.
  - eexists. right. reflexivity.
  - destruct H as [->|[->|H]]; [| |congruence]; eexists; [left|right]; reflexivity.
Qed.

(* ===================================================================== *)
(** * Further properties of the resolver *)
(* ===================================================================== *)

Lemma append_assoc (a b c : string) : ((a ++ b) ++ c = a ++ (b ++ c))%string.
Proof. induction a as [|x a IH]; simpl; [reflexivity|now rewrite IH]. Qed.

Lemma allBytes_impl (p q : ascii -> bool) (s : string) :
  (forall c, p c = true -> q c = true) ->
  allBytes p s = true -> allBytes q s = true.
Proof.
  intros Hpq. induction s as [|c rest IH]; simpl; [reflexivity|].
  intros H. apply andb_true_iff in H as [Hc Hrest].
  now rewrite (Hpq c Hc), IH.
Qed.

Lemma allBytes_append (p : ascii -> bool) (a b : string) :
  allBytes p (a ++ b) = allBytes p a && allBytes p b.
Proof.
  induction a as [|x a IH]; simpl; [reflexivity|].
  now rewrite IH, andb_assoc.
Qed.

(** The sanitized build version holds no slash. *)
Lemma tidy_noSlash (buildVersion : string) :
  noSlash (tidyBuildVersionAsTag buildVersion) = true.
Proof.
  unfold noSlash.
  apply allBytes_impl with (p := fun c => negb (illegal c)).
  - intros c. destruct c as [[] [] [] [] [] [] [] []]; simpl; congruence.
  - apply scan_is_legal.
Qed.

(** The repository portion ends at the last slash of the reference. *)
Lemma repositoryPortion_last_slash (front back : string) :
  noSlash back = true ->
  repositoryPortion (front ++ String "/" back) = front.
Proof.
  intros H. unfold repositoryPortion.
  rewrite Split_app, (Split_no_sep "/" back H), removelast_last.
  apply (Join_Split "/").
Qed.

(** X5. For the image of a repository [r] at the default tag, the
    credential looked up is the first record whose repository is [r],
    provided the container name holds no slash (the sanitized tag never
    does).  An explicit tag is not sanitized: for a tag with a slash the
    lookup compares the records with the reference up to the last slash of
    the tag instead. *)
Theorem X5_lookup_by_repository
    (records : list ContainerRepositoryCredentialConfig)
    (r container buildVersion : string) :
  noSlash container = true ->
  getCredentialsForContainer (map Some records)
    (imagePath r container (tidyBuildVersionAsTag buildVersion))
  = Done (find (fun c => String.eqb r (Repository c)) records)
  /\ (forall front back,
        noSlash back = true ->
        getCredentialsForContainer (map Some records)
          (imagePath r container (front ++ "/" ++ back))
        = Done (find (fun c => String.eqb (imagePath r container front) (Repository c))
                     records)).
Proof.
  intros Hc. split.
  - rewrite getCredentials_find, repositoryPortion_imagePath;
      [reflexivity|exact Hc|apply tidy_noSlash].
  - intros front back Hb. rewrite getCredentials_find.
    replace (imagePath r container (front ++ "/" ++ back))
      with (imagePath r container front ++ String "/" back)%string.
    + now rewrite repositoryPortion_last_slash.
    + unfold imagePath. rewrite !append_assoc. reflexivity.
Qed.


(* ===================================================================== *)
(** * Further invariants of a run *)
(* ===================================================================== *)

Lemma run_keeps (engine : Engine)
    (json_Unmarshal : string -> option (list CredentialPtr)) (p : Process)
    (I : list Cmd -> Prop) :
  I [] -> keeps I (main engine json_Unmarshal p) ->
  I (commands (fst (run engine json_Unmarshal p))).
Proof.
  intros H0 K. specialize (K [] H0). unfold run.
  destruct (main engine json_Unmarshal p []) as [tr' [[]| |]]; exact K.
Qed.

(** X7. Every [docker login] of a run is the login of a record of the
    credential list: user name, password and registry host are never taken
    from anywhere else. *)
Theorem X7_logins_from_credentials
    (engine : Engine) (json_Unmarshal : string -> option (list CredentialPtr))
    (p : Process) (c : Cmd) :
  In c (commands (fst (run engine json_Unmarshal p))) ->
  isDocker "login" c = true ->
  exists record,
    In (Some record) (credentialsOf json_Unmarshal p) /\ c = loginCommand record.
Proof.
  intros Hin Hlogin.
  set (R := fun c : Cmd =>
              isDocker "login" c = true ->
              exists record,
                In (Some record) (credentialsOf json_Unmarshal p)
                /\ c = loginCommand record).
  assert (H : Forall R (commands (fst (run engine json_Unmarshal p)))).
  { apply run_keeps; [constructor|]. apply keeps_main.
    - intros record Hrecord. apply closed_Forall. intros _. now exists record.
    - intros d Hd. apply closed_Forall. intros Hd'. congruence. }
  rewrite Forall_forall in H. exact (H c Hin Hlogin).
Qed.

(** X8. A run starts no program other than [docker], [mkdir] and [cp], and
    [mkdir] and [cp] only in the build action, in the work directory. *)
Theorem X8_programs_of_a_run
    (engine : Engine) (json_Unmarshal : string -> option (list CredentialPtr))
    (p : Process) (c : Cmd) :
  In c (commands (fst (run engine json_Unmarshal p))) ->
  Name c = "docker"
  \/ (action (flags p) = "build"
      /\ (Name c = "mkdir" \/ Name c = "cp")
      /\ Dir c = "/estafette-work").
Proof.
  intros Hin.
  set (R := fun c : Cmd =>
              Name c = "docker"
              \/ (action (flags p) = "build"
                  /\ (Name c = "mkdir" \/ Name c = "cp")
                  /\ Dir c = "/estafette-work")).
  assert (H : Forall R (commands (fst (run engine json_Unmarshal p)))).
  { apply run_keeps; [constructor|].
    unfold main. cbv zeta.
    apply keeps_bind; [apply keeps_log|intros _].
    apply keeps_bind; [repeat keeps_step|intros _].
    destruct (String.eqb_spec (action (flags p)) "build") as [Ha|Ha].
    - unfold caseBuild. cbv zeta.
      repeat keeps_step; apply closed_Forall; unfold R; simpl; auto.
    - unfold casePush, caseTag. cbv zeta.
      repeat keeps_step; apply closed_Forall; unfold R; simpl; auto. }
  rewrite Forall_forall in H. exact (H c Hin).
Qed.

(* ===================================================================== *)
(** * The first failure ends the run *)
(* ===================================================================== *)

Section FailFast.

Variable engine : Engine.

Lemma allSucceeded_nil : allSucceeded engine [].
Proof. intros tr1 c tr2 E. destruct tr1; discriminate E. Qed.

Lemma allSucceeded_log (tr : Trace) (l : string) :
  allSucceeded engine tr -> allSucceeded engine (tr ++ [Log l]).
Proof.
  intros H tr1 c tr2 E.
  destruct (exists_last (l := Exec c :: tr2)) as (body & e & Hlast); [discriminate|].
  rewrite Hlast, app_assoc in E. apply app_inj_tail in E as [E <-].
  destruct body as [|x body]; simpl in Hlast.
  - discriminate Hlast.
  - injection Hlast as <- _. apply (H tr1 c body). exact E.
Qed.

Lemma allSucceeded_exec (tr : Trace) (c : Cmd) :
  allSucceeded engine tr -> engine tr c = None ->
  allSucceeded engine (tr ++ [Exec c]).
Proof.
  intros H Hc tr1 d tr2 E.
  destruct (exists_last (l := Exec d :: tr2)) as (body & e & Hlast); [discriminate|].
  rewrite Hlast, app_assoc in E. apply app_inj_tail in E as [E <-].
  destruct body as [|x body]; simpl in Hlast.
  - injection Hlast as <-. rewrite app_nil_r in E. now subst tr1.
  - injection Hlast as <- _. apply (H tr1 d body). exact E.
Qed.

Lemma failfast_ret {A} (a : A) : failfast engine (ret a).
Proof. intros tr H. exact H. Qed.

Lemma failfast_lift {A} (o : Outcome A) : failfast engine (lift o).
Proof. intros tr H. unfold lift. destruct o; auto. Qed.

Lemma failfast_log (l : string) : failfast engine (log_Printf l).
Proof. intros tr H. simpl. now apply allSucceeded_log. Qed.

Lemma failfast_fatal {A} (l : string) : failfast engine (@log_Fatal A l).
Proof. intros tr H. simpl. left. now apply allSucceeded_log. Qed.

Lemma failfast_bind {A B} (m : M A) (k : A -> M B) :
  failfast engine m -> (forall a, failfast engine (k a)) ->
  failfast engine (bind m k).
Proof.
  intros Hm Hk tr H. unfold bind. specialize (Hm tr H).
  destruct (m tr) as [tr' [a| |]]; auto. now apply Hk.
Qed.

(** Running a command and handling its error. *)
Lemma failfast_exec (c : Cmd) :
  failfast engine (bind (Run engine c) (fun err => handleError err)).
Proof.
  intros tr H. unfold bind, Run, handleError.
  destruct (engine tr c) as [msg|] eqn:Hc; simpl.
  - right. exists tr, c, msg. rewrite <- app_assoc. auto.
  - now apply allSucceeded_exec.
Qed.

Lemma failfast_forRange {A} (l : list A) (body : A -> M unit) :
  (forall x, failfast engine (body x)) -> failfast engine (forRange l body).
Proof.
  intros H. induction l as [|x rest IH]; simpl.
  - apply failfast_ret.
  - apply failfast_bind; [apply H|intros _; exact IH].
Qed.

Lemma failfast_forRangeFrom {A} (i : nat) (l : list A) (body : nat -> A -> M unit) :
  (forall j x, failfast engine (body j x)) ->
  failfast engine (forRangeFrom i l body).
Proof.
  intros H. revert i. induction l as [|x rest IH]; intros i; simpl.
  - apply failfast_ret.
  - apply failfast_bind; [apply H|intros _; apply IH].
Qed.

Ltac failfast_step :=
  lazymatch goal with
  | |- failfast _ (bind (Run _ _) _) => apply failfast_exec
  | |- failfast _ (bind _ _) => apply failfast_bind; [|intros ?]
  | |- failfast _ (ret _) => apply failfast_ret
  | |- failfast _ (lift _) => apply failfast_lift
  | |- failfast _ (log_Printf _) => apply failfast_log
  | |- failfast _ (log_Fatal _) => apply failfast_fatal
  | |- failfast _ (index0 ?l) => destruct l; unfold index0
  | |- failfast _ (validateRepositories _) => unfold validateRepositories
  | |- failfast _ (runCommand _ _ _) => unfold runCommand
  | |- failfast _ (loginIfRequired _ _ _) => unfold loginIfRequired; cbv zeta
  | |- failfast _ (forRange _ _) => apply failfast_forRange; intros ?
  | |- failfast _ (forRangeFrom _ _ _) => apply failfast_forRangeFrom; intros ? ?
  | |- failfast _ (if ?b then _ else _) => destruct b
  | |- failfast _ (match ?x with Some _ => _ | None => _ end) => destruct x
  end.

Lemma failfast_main (json_Unmarshal : string -> option (list CredentialPtr))
    (p : Process) :
  failfast engine (main engine json_Unmarshal p).
Proof.
  unfold main, caseBuild, casePush, caseTag. cbv zeta.
  repeat failfast_step.
Qed.

(** A failed command of a trace that stopped at its first failure is the
    last one. *)
Lemma failedLast_split (tr tr1 tr2 : Trace) (c : Cmd) (msg : string) :
  failedLast engine tr ->
  tr = tr1 ++ Exec c :: tr2 -> engine tr1 c = Some msg ->
  tr2 = [Log msg].
Proof.
  intros (tr0 & c0 & msg0 & -> & Hall & Hc0) E Hc.
  apply app_eq_app in E as [l [[E1 E2]|[E1 E2]]].
  - destruct l as [|x l]; simpl in E2.
    + rewrite app_nil_r in E1. injection E2 as Ec Et. subst. congruence.
    + injection E2 as Ex E2. subst x tr0.
      specialize (Hall tr1 c l eq_refl). congruence.
  - destruct l as [|x l]; simpl in E2.
    + rewrite app_nil_r in E1. injection E2 as Ec Et. subst. congruence.
    + injection E2 as Ex E2. destruct l as [|y l]; simpl in E2.
      * injection E2 as E2 _. discriminate E2.
      * injection E2 as _ E2. destruct l; discriminate E2.
Qed.

End FailFast.

(** X9. The first command that fails ends the run: if a command of the
    trace returned an error, the error is logged, nothing follows it, and
    the run is fatal.  In a run that returns, every command succeeded. *)
Theorem X9_first_failure_is_fatal
    (engine : Engine) (json_Unmarshal : string -> option (list CredentialPtr))
    (p : Process) :
  (forall tr1 c tr2 msg,
      fst (run engine json_Unmarshal p) = tr1 ++ Exec c :: tr2 ->
      engine tr1 c = Some msg ->
      tr2 = [Log msg] /\ snd (run engine json_Unmarshal p) = Fatal)
  /\ (snd (run engine json_Unmarshal p) = Done tt ->
      allSucceeded engine (fst (run engine json_Unmarshal p))).
Proof.
  pose proof (failfast_main engine json_Unmarshal p [] (allSucceeded_nil engine)) as H.
  unfold run. destruct (main engine json_Unmarshal p []) as [tr' o]. simpl.
  split.
  - intros tr1 c tr2 msg E Hc.
    assert (Hno : ~ allSucceeded engine tr').
    { intros Hall. specialize (Hall tr1 c tr2 E). congruence. }
    destruct o as [[]| |]; try contradiction.
    destruct H as [H|H]; [contradiction|].
    split; [|reflexivity].
    exact (failedLast_split engine tr' tr1 tr2 c msg H E Hc).
  - intros Ho. subst o. exact H.
Qed.

(* ===================================================================== *)
(** * Failures only cut the run short *)
(* ===================================================================== *)

Section Truncation.

Variable engine : Engine.

Lemma truncates_same {A} (m : M A) :
  (forall tr, exists l, m tr = (tr ++ l, snd (m tr)) /\ commands l = []) ->
  (forall tr trs, snd (m tr) = snd (m trs)) ->
  truncates m m.
Proof.
  intros Hm Ho. split.
  - intros trs. destruct (Hm trs) as [l [E Hl]]. exists [].
    rewrite E. simpl. now rewrite commands_app, Hl.
  - intros tr trs Hc. left. split; [apply Ho|].
    destruct (Hm tr) as [l [E Hl]]. destruct (Hm trs) as [ls [Es Hls]].
    rewrite E, Es. simpl. now rewrite !commands_app, Hl, Hls, Hc.
Qed.

Lemma truncates_ret {A} (a : A) : truncates (ret a) (ret a).
Proof.
  apply truncates_same; [|reflexivity].
  intros tr. exists []. now rewrite app_nil_r.
Qed.

Lemma truncates_lift {A} (o : Outcome A) : truncates (lift o) (lift o).
Proof.
  apply truncates_same; [|reflexivity].
  intros tr. exists []. now rewrite app_nil_r.
Qed.

Lemma truncates_log (l : string) : truncates (log_Printf l) (log_Printf l).
Proof.
  apply truncates_same; [|reflexivity].
  intros tr. now exists [Log l].
Qed.

Lemma truncates_fatal {A} (l : string) : truncates (@log_Fatal A l) (log_Fatal l).
Proof.
  apply truncates_same; [|reflexivity].
  intros tr. now exists [Log l].
Qed.

Lemma truncates_exec (c : Cmd) :
  truncates (bind (Run engine c) (fun err => handleError err))
            (bind (Run succeeds c) (fun err => handleError err)).
Proof.
  split.
  - intros trs. exists [c]. simpl. apply commands_exec.
  - intros tr trs Hc. unfold bind, Run, handleError, succeeds.
    destruct (engine tr c) as [msg|]; simpl.
    + right. split; [reflexivity|]. exists [].
      now rewrite commands_log, !commands_exec, app_nil_r, Hc.
    + left. split; [reflexivity|]. now rewrite !commands_exec, Hc.
Qed.

Lemma truncates_bind {A B} (m ms : M A) (k ks : A -> M B) :
  truncates m ms -> (forall a, truncates (k a) (ks a)) ->
  truncates (bind m k) (bind ms ks).
Proof.
  intros [Hext Hm] Hk.
  assert (Hext' : forall trs, exists rest,
              commands (fst (bind ms ks trs)) = commands trs ++ rest).
  { intros trs. unfold bind. destruct (Hext trs) as [rest1 E1].
    destruct (ms trs) as [trs' [a| |]]; simpl in *; try (now exists rest1).
    destruct (proj1 (Hk a) trs') as [rest2 E2].
    exists (rest1 ++ rest2). now rewrite E2, E1, app_assoc. }
  split; [exact Hext'|].
  intros tr trs Hc. specialize (Hm tr trs Hc).
  specialize (Hext' trs). unfold bind in *.
  destruct (m tr) as [tr' o] eqn:Em. destruct (ms trs) as [trs' os] eqn:Ems.
  simpl in Hm. destruct Hm as [[Ho Hc']|[Ho [rest Hrest]]].
  - subst os. destruct o as [a| |]; simpl; auto.
    apply (proj2 (Hk a)). exact Hc'.
  - subst o. simpl. right. split; [reflexivity|].
    destruct os as [a| |]; simpl in *; try (now exists rest).
    destruct (proj1 (Hk a) trs') as [rest2 E2].
    exists (rest ++ rest2). now rewrite E2, Hrest, app_assoc.
Qed.

Lemma truncates_forRange {A} (l : list A) (body bodys : A -> M unit) :
  (forall x, truncates (body x) (bodys x)) ->
  truncates (forRange l body) (forRange l bodys).
Proof.
  intros H. induction l as [|x rest IH]; simpl.
  - apply truncates_ret.
  - apply truncates_bind; [apply H|intros _; exact IH].
Qed.

Lemma truncates_forRangeFrom {A} (i : nat) (l : list A)
    (body bodys : nat -> A -> M unit) :
  (forall j x, truncates (body j x) (bodys j x)) ->
  truncates (forRangeFrom i l body) (forRangeFrom i l bodys).
Proof.
  intros H. revert i. induction l as [|x rest IH]; intros i; simpl.
  - apply truncates_ret.
  - apply truncates_bind; [apply H|intros _; apply IH].
Qed.

Ltac truncates_step :=
  lazymatch goal with
  | |- truncates (bind (Run _ _) _) _ => apply truncates_exec
  | |- truncates (bind _ _) _ => apply truncates_bind; [|intros ?]
  | |- truncates (ret _) _ => apply truncates_ret
  | |- truncates (lift _) _ => apply truncates_lift
  | |- truncates (log_Printf _) _ => apply truncates_log
  | |- truncates (log_Fatal _) _ => apply truncates_fatal
  | |- truncates (index0 ?l) _ => destruct l; unfold index0
  | |- truncates (validateRepositories _) _ => unfold validateRepositories
  | |- truncates (runCommand _ _ _) _ => unfold runCommand
  | |- truncates (loginIfRequired _ _ _) _ => unfold loginIfRequired; cbv zeta
  | |- truncates (forRange _ _) _ => apply truncates_forRange; intros ?
  | |- truncates (forRangeFrom _ _ _) _ => apply truncates_forRangeFrom; intros ? ?
  | |- truncates (if ?b then _ else _) _ => destruct b
  | |- truncates (match ?x with Some _ => _ | None => _ end) _ => destruct x
  end.

Lemma truncates_main (json_Unmarshal : string -> option (list CredentialPtr))
    (p : Process) :
  truncates (main engine json_Unmarshal p) (main succeeds json_Unmarshal p).
Proof.
  unfold main, caseBuild, casePush, caseTag. cbv zeta.
  repeat truncates_step.
Qed.

End Truncation.

(** X10. What the external commands return does not change what a run
    attempts, only where it stops: the commands of any run are the first
    commands of the run on which every command succeeds, and a run that is
    not fatal ends as that run does, with the same commands. *)
Theorem X10_failures_truncate_the_run
    (engine : Engine) (json_Unmarshal : string -> option (list CredentialPtr))
    (p : Process) :
  exists rest,
    commands (fst (run succeeds json_Unmarshal p))
    = commands (fst (run engine json_Unmarshal p)) ++ rest
    /\ (snd (run engine json_Unmarshal p) <> Fatal ->
        rest = []
        /\ snd (run engine json_Unmarshal p) = snd (run succeeds json_Unmarshal p)).
Proof.
  destruct (proj2 (truncates_main engine json_Unmarshal p) [] [] eq_refl)
    as [[Ho Hc]|[Ho [rest Hrest]]]; unfold run.
  - exists []. rewrite app_nil_r. auto.
  - exists rest. split; [exact Hrest|]. intros Hne. contradiction.
Qed.

(* ===================================================================== *)
(** * All commands of the runs on which every command succeeds *)
(* ===================================================================== *)

Lemma yieldsC_ret : yieldsC (ret tt) [].
Proof. intros tr. exists tr. split; [reflexivity|now rewrite app_nil_r]. Qed.

Lemma yieldsC_log (l : string) : yieldsC (log_Printf l) [].
Proof.
  intros tr. eexists. split; [reflexivity|].
  now rewrite commands_log, app_nil_r.
Qed.

Lemma yieldsC_bind (m : M unit) (k : unit -> M unit) (c1 c2 : list Cmd) :
  yieldsC m c1 -> yieldsC (k tt) c2 -> yieldsC (bind m k) (c1 ++ c2).
Proof.
  intros Hm Hk tr. unfold bind.
  destruct (Hm tr) as [tr1 [E1 O1]]. rewrite E1.
  destruct (Hk tr1) as [tr2 [E2 O2]].
  exists tr2. split; [exact E2|]. now rewrite O2, O1, app_assoc.
Qed.

Lemma yieldsC_bind_ret {X} (a : X) (k : X -> M unit) (cs : list Cmd) :
  yieldsC (k a) cs -> yieldsC (bind (ret a) k) cs.
Proof. intros H tr. exact (H tr). Qed.

Lemma yieldsC_eq (m : M unit) (cs cs' : list Cmd) :
  yieldsC m cs -> cs = cs' -> yieldsC m cs'.
Proof. now intros H <-. Qed.

Lemma yieldsC_forRange {X} (l : list X) (body : X -> M unit) (g : X -> list Cmd) :
  (forall x, yieldsC (body x) (g x)) -> yieldsC (forRange l body) (flat_map g l).
Proof.
  intros H. induction l as [|x rest IH]; simpl.
  - apply yieldsC_ret.
  - apply yieldsC_bind; [apply H|exact IH].
Qed.

Lemma yieldsC_forRangeFrom {X} (i : nat) (l : list X) (body : nat -> X -> M unit)
    (g : nat -> X -> list Cmd) :
  (forall j x, yieldsC (body j x) (g j x)) ->
  yieldsC (forRangeFrom i l body) (flatMapFrom i g l).
Proof.
  intros H. revert i. induction l as [|x rest IH]; intros i; simpl.
  - apply yieldsC_ret.
  - apply yieldsC_bind; [apply H|apply IH].
Qed.

Lemma yieldsC_run (m : M unit) (cs : list Cmd) (l : string) :
  yieldsC m cs ->
  snd (m ([] ++ [Log l])) = Done tt /\ commands (fst (m ([] ++ [Log l]))) = cs.
Proof.
  intros H. destruct (H ([] ++ [Log l])) as [tr' [E O]]. rewrite E.
  split; [reflexivity|exact O].
Qed.

Section AllCommands.

Variable engine : Engine.
Hypothesis engine_ok : forall tr c, engine tr c = None.
Variable records : list ContainerRepositoryCredentialConfig.

Lemma yieldsC_exec (c : Cmd) :
  yieldsC (bind (Run engine c) (fun err => handleError err)) [c].
Proof.
  intros tr. unfold bind, Run. rewrite engine_ok. simpl.
  eexists. split; [reflexivity|apply commands_exec].
Qed.

Lemma yieldsC_runCommand (command : string) (args : list string) :
  yieldsC (runCommand engine command args)
          [mkCmd command args "/estafette-work" true].
Proof.
  unfold runCommand.
  apply (yieldsC_bind _ _ [] _ (yieldsC_log _)), yieldsC_exec.
Qed.

Lemma yieldsC_login (containerImage : string) :
  yieldsC (loginIfRequired engine (map Some records) containerImage)
          (loginsFor records containerImage).
Proof.
  intros tr. unfold loginsFor.
  destruct (find (fun c => String.eqb (repositoryPortion containerImage) (Repository c))
                 records) as [c|] eqn:Hfind.
  - rewrite (loginIfRequired_some engine (map Some records) containerImage c tr)
      by (now rewrite getCredentials_find, Hfind).
    cbv zeta. rewrite engine_ok.
    eexists. split; [reflexivity|].
    now rewrite commands_exec, commands_log.
  - rewrite (loginIfRequired_none engine (map Some records) containerImage tr)
      by (now rewrite getCredentials_find, Hfind).
    exists tr. split; [reflexivity|now rewrite app_nil_r].
Qed.

Ltac yieldsC_step :=
  lazymatch goal with
  | |- yieldsC (bind (ret _) _) _ => apply yieldsC_bind_ret
  | |- yieldsC (bind (Run _ _) _) _ => apply yieldsC_exec
  | |- yieldsC (bind _ _) _ => eapply yieldsC_bind
  | |- yieldsC (ret tt) _ => apply yieldsC_ret
  | |- yieldsC (log_Printf _) _ => apply yieldsC_log
  | |- yieldsC (runCommand _ _ _) _ => apply yieldsC_runCommand
  | |- yieldsC (loginIfRequired _ _ _) _ => apply yieldsC_login
  end.

Lemma yieldsC_fanOutStep (source target l1 l2 : string) :
  yieldsC
    (log_Printf l1 ;;
     runCommand engine "docker" ["tag"; source; target] ;;
     loginIfRequired engine (map Some records) target ;;
     log_Printf l2 ;;
     runCommand engine "docker" ["push"; target])
    (fanOutStep records source target).
Proof.
  eapply yieldsC_eq; [repeat yieldsC_step|reflexivity].
Qed.

Lemma yieldsC_casePush (r0 : string) (rest tagsSlice : list string)
    (container tag : string) :
  yieldsC
    (casePush engine (map Some records) (r0 :: rest) tagsSlice container tag)
    (flatMapFrom 0
       (fun i r =>
          (if (0 <? i)%nat
           then [mkCmd "docker"
                   ["tag"; imagePath r0 container tag; imagePath r container tag]
                   "" false]
           else [])
          ++ loginsFor records (imagePath r container tag)
          ++ [docker ["push"; imagePath r container tag]]
          ++ flat_map
               (fun t => fanOutStep records (imagePath r0 container tag)
                                    (imagePath r container t))
               tagsSlice)
       (r0 :: rest)).
Proof.
  unfold casePush. cbv zeta. apply yieldsC_bind_ret.
  apply yieldsC_forRangeFrom. intros j r.
  apply yieldsC_bind.
  - destruct (0 <? j)%nat; [|apply yieldsC_ret].
    eapply yieldsC_eq; [repeat yieldsC_step|reflexivity].
  - eapply yieldsC_eq.
    + yieldsC_step; [yieldsC_step|].
      yieldsC_step; [yieldsC_step|].
      yieldsC_step; [yieldsC_step|].
      apply yieldsC_forRange
        with (g := fun t => fanOutStep records (imagePath r0 container tag)
                                       (imagePath r container t)).
      intros t. apply yieldsC_fanOutStep.
    + reflexivity.
Qed.

Lemma yieldsC_caseTag (r0 : string) (rest tagsSlice : list string)
    (container tag : string) :
  yieldsC
    (caseTag engine (map Some records) (r0 :: rest) tagsSlice container tag)
    (loginsFor records (imagePath r0 container tag)
       ++ [docker ["pull"; imagePath r0 container tag]]
       ++ flatMapFrom 0
            (fun i r =>
               (if (0 <? i)%nat
                then fanOutStep records (imagePath r0 container tag)
                                (imagePath r container tag)
                else [])
               ++ flat_map
                    (fun t => fanOutStep records (imagePath r0 container tag)
                                         (imagePath r container t))
                    tagsSlice)
            (r0 :: rest)).
Proof.
  unfold caseTag. cbv zeta. apply yieldsC_bind_ret.
  eapply yieldsC_eq.
  - yieldsC_step; [yieldsC_step|].
    yieldsC_step; [yieldsC_step|].
    yieldsC_step; [yieldsC_step|].
    apply yieldsC_forRangeFrom
      with (g := fun i r =>
                   (if (0 <? i)%nat
                    then fanOutStep records (imagePath r0 container tag)
                                    (imagePath r container tag)
                    else [])
                   ++ flat_map
                        (fun t => fanOutStep records (imagePath r0 container tag)
                                             (imagePath r container t))
                        tagsSlice).
    intros j r. apply yieldsC_bind.
    + destruct (0 <? j)%nat; [apply yieldsC_fanOutStep|apply yieldsC_ret].
    + apply yieldsC_forRange
        with (g := fun t => fanOutStep records (imagePath r0 container tag)
                                       (imagePath r container t)).
      intros t. apply yieldsC_fanOutStep.
  - reflexivity.
Qed.

Lemma flat_map_singleton {X Y} (f : X -> Y) (l : list X) :
  flat_map (fun x => [f x]) l = map f l.
Proof. induction l; simpl; congruence. Qed.

Lemma yieldsC_caseBuild (Getenv : string -> string) (r0 : string)
    (rest tagsSlice copySlice argsSlice : list string)
    (container tag path dockerfile : string) :
  yieldsC
    (caseBuild engine Getenv (map Some records) (r0 :: rest) tagsSlice
       copySlice argsSlice container tag path dockerfile)
    ([mkCmd "mkdir" ["-p"; path] "/estafette-work" true]
       ++ map (fun c => mkCmd "cp" ["-r"; c; path] "/estafette-work" true)
              (if negb (String.eqb path ".") && negb (contains copySlice dockerfile)
               then copySlice ++ [dockerfile] else copySlice)
       ++ loginsFor records (imagePath r0 container tag)
       ++ [docker (buildArgs Getenv (r0 :: rest) tagsSlice argsSlice container tag
                     path dockerfile)]).
Proof.
  unfold caseBuild. cbv zeta.
  eapply yieldsC_eq.
  - yieldsC_step; [yieldsC_step|].
    yieldsC_step; [yieldsC_step|].
    yieldsC_step.
    { apply yieldsC_forRange
        with (g := fun c => [mkCmd "cp" ["-r"; c; path] "/estafette-work" true]).
      intros c. eapply yieldsC_eq; [repeat yieldsC_step|reflexivity]. }
    apply yieldsC_bind_ret.
    yieldsC_step; [yieldsC_step|].
    yieldsC_step; [yieldsC_step|].
    yieldsC_step.
  - rewrite flat_map_singleton. reflexivity.
Qed.

End AllCommands.

Section AllCommandsOfMain.

Variable engine : Engine.
Variable json_Unmarshal : string -> option (list CredentialPtr).
Variable p : Process.
Hypothesis engine_ok : forall tr c, engine tr c = None.
Variable records : list ContainerRepositoryCredentialConfig.
Hypothesis credentials_ok : credentialsOf json_Unmarshal p = map Some records.
Hypothesis repositories_ok : repositories (flags p) <> "".

Lemma commands_push :
  action (flags p) = "push" ->
  snd (run engine json_Unmarshal p) = Done tt
  /\ commands (fst (run engine json_Unmarshal p))
     = flatMapFrom 0
         (fun i r =>
            (if (0 <? i)%nat
             then [mkCmd "docker"
                     ["tag"; sourceOf p; imagePath r (containerOf p) (defaultTagOf p)]
                     "" false]
             else [])
            ++ loginsFor records (imagePath r (containerOf p) (defaultTagOf p))
            ++ [docker ["push"; imagePath r (containerOf p) (defaultTagOf p)]]
            ++ flat_map
                 (fun t => fanOutStep records (sourceOf p)
                                      (imagePath r (containerOf p) t))
                 (splitList (tags (flags p))))
         (splitList (repositories (flags p))).
Proof.
  intros Ha. unfold run.
  rewrite (main_push engine json_Unmarshal p [] Ha repositories_ok).
  rewrite credentials_ok. unfold sourceOf.
  pose proof (splitList_not_nil _ repositories_ok) as Hne.
  destruct (splitList (repositories (flags p))) as [|r0 rest]; [contradiction|].
  apply yieldsC_run, yieldsC_casePush, engine_ok.
Qed.

Lemma commands_tag :
  action (flags p) = "tag" ->
  snd (run engine json_Unmarshal p) = Done tt
  /\ commands (fst (run engine json_Unmarshal p))
     = loginsFor records (sourceOf p)
         ++ [docker ["pull"; sourceOf p]]
         ++ flatMapFrom 0
              (fun i r =>
                 (if (0 <? i)%nat
                  then fanOutStep records (sourceOf p)
                                  (imagePath r (containerOf p) (defaultTagOf p))
                  else [])
                 ++ flat_map
                      (fun t => fanOutStep records (sourceOf p)
                                           (imagePath r (containerOf p) t))
                      (splitList (tags (flags p))))
              (splitList (repositories (flags p))).
Proof.
  intros Ha. unfold run.
  rewrite (main_tag engine json_Unmarshal p [] Ha repositories_ok).
  rewrite credentials_ok. unfold sourceOf.
  pose proof (splitList_not_nil _ repositories_ok) as Hne.
  destruct (splitList (repositories (flags p))) as [|r0 rest]; [contradiction|].
  apply yieldsC_run, yieldsC_caseTag, engine_ok.
Qed.

Lemma commands_build :
  action (flags p) = "build" ->
  snd (run engine json_Unmarshal p) = Done tt
  /\ commands (fst (run engine json_Unmarshal p))
     = [mkCmd "mkdir" ["-p"; path (flags p)] "/estafette-work" true]
         ++ map (fun c => mkCmd "cp" ["-r"; c; path (flags p)] "/estafette-work" true)
                (copyList p)
         ++ loginsFor records (sourceOf p)
         ++ [buildCommand p].
Proof.
  intros Ha. unfold run.
  rewrite (main_build engine json_Unmarshal p [] Ha repositories_ok).
  rewrite credentials_ok. unfold sourceOf, buildCommand, copyList.
  rewrite <- buildArgs_spec.
  pose proof (splitList_not_nil _ repositories_ok) as Hne.
  destruct (splitList (repositories (flags p))) as [|r0 rest]; [contradiction|].
  apply yieldsC_run, yieldsC_caseBuild, engine_ok.
Qed.

End AllCommandsOfMain.

(** X11. The push action, when every command succeeds, runs for each
    repository in the order of the list: for every repository but the
    first a [docker tag] of the source image as the repository's image at
    the default tag (not run through [runCommand]: in the directory of the
    process, output not attached); the login for that image if a record
    matches; its push; and then for every explicit tag, in order, the tag
    of the source image, the login if a record matches, and the push. *)
Theorem X11_push_commands
    (engine : Engine) (json_Unmarshal : string -> option (list CredentialPtr))
    (p : Process) (records : list ContainerRepositoryCredentialConfig) :
  (forall tr c, engine tr c = None) ->
  credentialsOf json_Unmarshal p = map Some records ->
  repositories (flags p) <> "" ->
  action (flags p) = "push" ->
  snd (run engine json_Unmarshal p) = Done tt
  /\ commands (fst (run engine json_Unmarshal p))
     = flatMapFrom 0
         (fun i r =>
            (if (0 <? i)%nat
             then [mkCmd "docker"
                     ["tag"; sourceOf p; imagePath r (containerOf p) (defaultTagOf p)]
                     "" false]
             else [])
            ++ loginsFor records (imagePath r (containerOf p) (defaultTagOf p))
            ++ [docker ["push"; imagePath r (containerOf p) (defaultTagOf p)]]
            ++ flat_map
                 (fun t =>
                    [docker ["tag"; sourceOf p; imagePath r (containerOf p) t]]
                    ++ loginsFor records (imagePath r (containerOf p) t)
                    ++ [docker ["push"; imagePath r (containerOf p) t]])
                 (splitList (tags (flags p))))
         (splitList (repositories (flags p))).
Proof.
  intros Hok Hcred Hr Ha.
  exact (commands_push engine json_Unmarshal p Hok records Hcred Hr Ha).
Qed.

(** X12. The tag action, when every command succeeds, runs: the login for
    the source image if a record matches; the pull of the source image; and
    then for each repository in the order of the list the tag, login if a
    record matches, and push of the default tag (for every repository but
    the first) and of every explicit tag.  The source image itself is never
    pushed. *)
Theorem X12_tag_commands
    (engine : Engine) (json_Unmarshal : string -> option (list CredentialPtr))
    (p : Process) (records : list ContainerRepositoryCredentialConfig) :
  (forall tr c, engine tr c = None) ->
  credentialsOf json_Unmarshal p = map Some records ->
  repositories (flags p) <> "" ->
  action (flags p) = "tag" ->
  snd (run engine json_Unmarshal p) = Done tt
  /\ commands (fst (run engine json_Unmarshal p))
     = loginsFor records (sourceOf p)
         ++ [docker ["pull"; sourceOf p]]
         ++ flatMapFrom 0
              (fun i r =>
                 (if (0 <? i)%nat
                  then [docker ["tag"; sourceOf p;
                                imagePath r (containerOf p) (defaultTagOf p)]]
                       ++ loginsFor records (imagePath r (containerOf p) (defaultTagOf p))
                       ++ [docker ["push"; imagePath r (containerOf p) (defaultTagOf p)]]
                  else [])
                 ++ flat_map
                      (fun t =>
                         [docker ["tag"; sourceOf p; imagePath r (containerOf p) t]]
                         ++ loginsFor records (imagePath r (containerOf p) t)
                         ++ [docker ["push"; imagePath r (containerOf p) t]])
                      (splitList (tags (flags p))))
              (splitList (repositories (flags p))).
Proof.
  intros Hok Hcred Hr Ha.
  exact (commands_tag engine json_Unmarshal p Hok records Hcred Hr Ha).
Qed.

(** X13. The build action, when every command succeeds, runs: [mkdir -p]
    of the build path; [cp -r] into the build path for every entry of the
    copy list, and after them for the dockerfile when the build path is not
    [.] and the copy list does not name the dockerfile; the login for the
    image of the first repository, and of no other, if a record matches;
    and [docker build]. *)
Theorem X13_build_commands
    (engine : Engine) (json_Unmarshal : string -> option (list CredentialPtr))
    (p : Process) (records : list ContainerRepositoryCredentialConfig) :
  (forall tr c, engine tr c = None) ->
  credentialsOf json_Unmarshal p = map Some records ->
  repositories (flags p) <> "" ->
  action (flags p) = "build" ->
  snd (run engine json_Unmarshal p) = Done tt
  /\ commands (fst (run engine json_Unmarshal p))
     = [mkCmd "mkdir" ["-p"; path (flags p)] "/estafette-work" true]
         ++ map (fun c => mkCmd "cp" ["-r"; c; path (flags p)] "/estafette-work" true)
                (if negb (String.eqb (path (flags p)) ".")
                    && negb (contains (splitList (copy (flags p))) (dockerfile (flags p)))
                 then splitList (copy (flags p)) ++ [dockerfile (flags p)]
                 else splitList (copy (flags p)))
         ++ loginsFor records (sourceOf p)
         ++ [buildCommand p].
Proof.
  intros Hok Hcred Hr Ha.
  exact (commands_build engine json_Unmarshal p Hok records Hcred Hr Ha).
Qed.

(* ===================================================================== *)
(** * What is pushed *)
(* ===================================================================== *)

Lemma pushed_app (a b : list (list string)) : pushed (a ++ b) = pushed a ++ pushed b.
Proof. apply flat_map_app. Qed.

Lemma pushed_cons (a : list string) (l : list (list string)) :
  pushed (a :: l) = pushed [a] ++ pushed l.
Proof. apply (pushed_app [a] l). Qed.

Lemma pushed_fanOut (source r container : string) (tagsSlice : list string) :
  pushed (fanOut source r container tagsSlice) = map (imagePath r container) tagsSlice.
Proof.
  unfold fanOut. induction tagsSlice as [|t rest IH]; [reflexivity|].
  cbn [flat_map]. rewrite pushed_app, IH. reflexivity.
Qed.

Lemma pushed_pushPlan_from (source : string)
    (repositoriesSlice tagsSlice : list string) (container tag : string) (i : nat) :
  pushed
    (flatMapFrom i
       (fun i r =>
          (if (0 <? i)%nat
           then [["tag"; source; imagePath r container tag]] else [])
          ++ [["push"; imagePath r container tag]]
          ++ fanOut source r container tagsSlice)
       repositoriesSlice)
  = references repositoriesSlice tagsSlice container tag.
Proof.
  unfold references. revert i.
  induction repositoriesSlice as [|r rest IH]; intros i; [reflexivity|].
  cbn [flatMapFrom flat_map]. rewrite !pushed_app, IH, pushed_fanOut.
  destruct (0 <? i)%nat; reflexivity.
Qed.

Lemma pushed_tagPlan_from (source : string) (repositoriesSlice tagsSlice : list string)
    (container tag : string) (i : nat) :
  pushed
    (flatMapFrom (S i)
       (fun i r =>
          (if (0 <? i)%nat
           then tagAndPush source (imagePath r container tag) else [])
          ++ fanOut source r container tagsSlice)
       repositoriesSlice)
  = references repositoriesSlice tagsSlice container tag.
Proof.
  unfold references. revert i.
  induction repositoriesSlice as [|r rest IH]; intros i; [reflexivity|].
  cbn [flatMapFrom flat_map]. rewrite !pushed_app, IH, pushed_fanOut.
  reflexivity.
Qed.

Lemma pushed_tagPlan (source r0 : string) (rest tagsSlice : list string)
    (container tag : string) :
  pushed (["pull"; source] :: tagPlan source (r0 :: rest) tagsSlice container tag)
  = tl (references (r0 :: rest) tagsSlice container tag).
Proof.
  unfold tagPlan. cbn [flatMapFrom].
  rewrite pushed_cons, !pushed_app.
  rewrite pushed_tagPlan_from, pushed_fanOut.
  reflexivity.
Qed.

(** X14. When every command succeeds, the push action pushes every
    repository at the default tag and at every explicit tag, once each and
    in the order of the lists; the tag action pushes the same references
    but the first, the source image. *)
Theorem X14_pushed_references
    (engine : Engine) (json_Unmarshal : string -> option (list CredentialPtr))
    (p : Process) (records : list ContainerRepositoryCredentialConfig) :
  (forall tr c, engine tr c = None) ->
  credentialsOf json_Unmarshal p = map Some records ->
  repositories (flags p) <> "" ->
  let all :=
    flat_map
      (fun r => map (imagePath r (containerOf p))
                    (defaultTagOf p :: splitList (tags (flags p))))
      (splitList (repositories (flags p))) in
  (action (flags p) = "push" ->
   pushed (engineOps (fst (run engine json_Unmarshal p))) = all)
  /\ (action (flags p) = "tag" ->
      pushed (engineOps (fst (run engine json_Unmarshal p))) = tl all).
Proof.
  intros Hok Hcred Hr all. split; intros Ha.
  - rewrite (proj2 (run_push engine json_Unmarshal p Hok records Hcred Hr Ha)).
    apply pushed_pushPlan_from.
  - rewrite (proj2 (run_tag engine json_Unmarshal p Hok records Hcred Hr Ha)).
    pose proof (splitList_not_nil _ Hr) as Hne. subst all.
    destruct (splitList (repositories (flags p))) as [|r0 rest]; [contradiction|].
    apply pushed_tagPlan.
Qed.

(* ===================================================================== *)
(** * Panics *)
(* ===================================================================== *)

Section Panics.

Variable engine : Engine.
Variable credentials : list CredentialPtr.

Lemma getCredentials_panic (containerImage : string) :
  getCredentialsForContainer credentials containerImage = Panic ->
  In None credentials.
Proof.
  induction credentials as [|[d|] rest IH]; simpl; [discriminate| |now left].
  destruct (String.eqb _ _); [discriminate|]. intros H. right. now apply IH.
Qed.

Lemma nopanic_ret {A} (a : A) : panicsOnNilOnly credentials (ret a).
Proof. intros tr H. discriminate H. Qed.

Lemma nopanic_log (l : string) : panicsOnNilOnly credentials (log_Printf l).
Proof. intros tr H. discriminate H. Qed.

Lemma nopanic_fatal {A} (l : string) : panicsOnNilOnly credentials (@log_Fatal A l).
Proof. intros tr H. discriminate H. Qed.

Lemma nopanic_Run (c : Cmd) : panicsOnNilOnly credentials (Run engine c).
Proof. intros tr H. discriminate H. Qed.

Lemma nopanic_bind {A B} (m : M A) (k : A -> M B) :
  panicsOnNilOnly credentials m -> (forall a, panicsOnNilOnly credentials (k a)) ->
  panicsOnNilOnly credentials (bind m k).
Proof.
  intros Hm Hk tr. unfold bind. specialize (Hm tr).
  destruct (m tr) as [tr' [a| |]]; simpl in *; auto; [apply Hk|discriminate].
Qed.

Lemma nopanic_lookup (containerImage : string) :
  panicsOnNilOnly credentials
    (lift (getCredentialsForContainer credentials containerImage)).
Proof. intros tr H. simpl in H. now apply getCredentials_panic in H. Qed.

Lemma nopanic_forRange {A} (l : list A) (body : A -> M unit) :
  (forall x, panicsOnNilOnly credentials (body x)) ->
  panicsOnNilOnly credentials (forRange l body).
Proof.
  intros H. induction l as [|x rest IH]; simpl.
  - apply nopanic_ret.
  - apply nopanic_bind; [apply H|intros _; exact IH].
Qed.

Lemma nopanic_forRangeFrom {A} (i : nat) (l : list A) (body : nat -> A -> M unit) :
  (forall j x, panicsOnNilOnly credentials (body j x)) ->
  panicsOnNilOnly credentials (forRangeFrom i l body).
Proof.
  intros H. revert i. induction l as [|x rest IH]; intros i; simpl.
  - apply nopanic_ret.
  - apply nopanic_bind; [apply H|intros _; apply IH].
Qed.

Ltac nopanic_step :=
  lazymatch goal with
  | |- panicsOnNilOnly _ (bind _ _) => apply nopanic_bind; [|intros ?]
  | |- panicsOnNilOnly _ (ret _) => apply nopanic_ret
  | |- panicsOnNilOnly _ (lift (getCredentialsForContainer _ _)) => apply nopanic_lookup
  | |- panicsOnNilOnly _ (log_Printf _) => apply nopanic_log
  | |- panicsOnNilOnly _ (log_Fatal _) => apply nopanic_fatal
  | |- panicsOnNilOnly _ (Run _ _) => apply nopanic_Run
  | |- panicsOnNilOnly _ (handleError ?e) => destruct e; unfold handleError
  | |- panicsOnNilOnly _ (runCommand _ _ _) => unfold runCommand
  | |- panicsOnNilOnly _ (loginIfRequired _ _ _) => unfold loginIfRequired; cbv zeta
  | |- panicsOnNilOnly _ (forRange _ _) => apply nopanic_forRange; intros ?
  | |- panicsOnNilOnly _ (forRangeFrom _ _ _) => apply nopanic_forRangeFrom; intros ? ?
  | |- panicsOnNilOnly _ (if ?b then _ else _) => destruct b
  | |- panicsOnNilOnly _ (match ?x with Some _ => _ | None => _ end) => destruct x
  end.

Lemma nopanic_caseBuild (Getenv : string -> string) (r0 : string)
    (rest tagsSlice copySlice argsSlice : list string)
    (container tag path dockerfile : string) :
  panicsOnNilOnly credentials
    (caseBuild engine Getenv credentials (r0 :: rest) tagsSlice copySlice argsSlice
       container tag path dockerfile).
Proof.
  unfold caseBuild, index0. cbv zeta. repeat nopanic_step.
Qed.

Lemma nopanic_casePush (r0 : string) (rest tagsSlice : list string)
    (container tag : string) :
  panicsOnNilOnly credentials
    (casePush engine credentials (r0 :: rest) tagsSlice container tag).
Proof.
  unfold casePush, index0. cbv zeta. repeat nopanic_step.
Qed.

Lemma nopanic_caseTag (r0 : string) (rest tagsSlice : list string)
    (container tag : string) :
  panicsOnNilOnly credentials
    (caseTag engine credentials (r0 :: rest) tagsSlice container tag).
Proof.
  unfold caseTag, index0. cbv zeta. repeat nopanic_step.
Qed.

End Panics.

(** X15. A run panics only when the credential list holds a [nil] entry:
    the first repository is never read from an empty slice, because an
    empty [repositories] flag is fatal before and a flag that is not empty
    splits into at least one element. *)
Theorem X15_panic_only_on_nil_credential
    (engine : Engine) (json_Unmarshal : string -> option (list CredentialPtr))
    (p : Process) :
  snd (run engine json_Unmarshal p) = Panic ->
  In None (credentialsOf json_Unmarshal p).
Proof.
  unfold run.
  destruct (String.eqb_spec (repositories (flags p)) "") as [Hr|Hr].
  { destruct (main_no_repositories engine json_Unmarshal p [] Hr) as [line E].
    rewrite E. discriminate. }
  pose proof (splitList_not_nil _ Hr) as Hne.
  destruct (String.eqb_spec (action (flags p)) "build") as [Hb|Hb].
  { rewrite (main_build engine json_Unmarshal p [] Hb Hr).
    destruct (splitList (repositories (flags p))) as [|r0 rest]; [contradiction|].
    apply nopanic_caseBuild. }
  destruct (String.eqb_spec (action (flags p)) "push") as [Hp|Hp].
  { rewrite (main_push engine json_Unmarshal p [] Hp Hr).
    destruct (splitList (repositories (flags p))) as [|r0 rest]; [contradiction|].
    apply nopanic_casePush. }
  destruct (String.eqb_spec (action (flags p)) "tag") as [Ht|Ht].
  { rewrite (main_tag engine json_Unmarshal p [] Ht Hr).
    destruct (splitList (repositories (flags p))) as [|r0 rest]; [contradiction|].
    apply nopanic_caseTag. }
  apply String.eqb_neq in Hb, Hp, Ht, Hr.
  unfold main, validateRepositories, bind, log_Printf.
  rewrite Hb, Hp, Ht, Hr. discriminate.
Qed.

(* ===================================================================== *)
(** * Fatal runs *)
(* ===================================================================== *)

Section Fatal.

Variable engine : Engine.

Lemma byFailure_ret {A} (a : A) : fatalByFailure engine (ret a).
Proof. intros tr H. discriminate H. Qed.

Lemma byFailure_log (l : string) : fatalByFailure engine (log_Printf l).
Proof. intros tr H. discriminate H. Qed.

Lemma byFailure_lookup (credentials : list CredentialPtr) (containerImage : string) :
  fatalByFailure engine (lift (getCredentialsForContainer credentials containerImage)).
Proof.
  intros tr H. simpl in H. exfalso.
  induction credentials as [|[d|] rest IH]; simpl in H; try discriminate H.
  destruct (String.eqb _ _); [discriminate H|auto].
Qed.

Lemma byFailure_exec (c : Cmd) :
  fatalByFailure engine (bind (Run engine c) (fun err => handleError err)).
Proof.
  intros tr. unfold bind, Run, handleError.
  destruct (engine tr c) as [msg|] eqn:Hc; simpl; [|discriminate].
  intros _. exists tr, c, msg. now rewrite <- app_assoc.
Qed.

Lemma byFailure_bind {A B} (m : M A) (k : A -> M B) :
  fatalByFailure engine m -> (forall a, fatalByFailure engine (k a)) ->
  fatalByFailure engine (bind m k).
Proof.
  intros Hm Hk tr. unfold bind. specialize (Hm tr).
  destruct (m tr) as [tr' [a| |]]; simpl in *; auto; [apply Hk|discriminate].
Qed.

Lemma byFailure_forRange {A} (l : list A) (body : A -> M unit) :
  (forall x, fatalByFailure engine (body x)) ->
  fatalByFailure engine (forRange l body).
Proof.
  intros H. induction l as [|x rest IH]; simpl.
  - apply byFailure_ret.
  - apply byFailure_bind; [apply H|intros _; exact IH].
Qed.

Lemma byFailure_forRangeFrom {A} (i : nat) (l : list A) (body : nat -> A -> M unit) :
  (forall j x, fatalByFailure engine (body j x)) ->
  fatalByFailure engine (forRangeFrom i l body).
Proof.
  intros H. revert i. induction l as [|x rest IH]; intros i; simpl.
  - apply byFailure_ret.
  - apply byFailure_bind; [apply H|intros _; apply IH].
Qed.

Ltac byFailure_step :=
  lazymatch goal with
  | |- fatalByFailure _ (bind (Run _ _) _) => apply byFailure_exec
  | |- fatalByFailure _ (bind _ _) => apply byFailure_bind; [|intros ?]
  | |- fatalByFailure _ (ret _) => apply byFailure_ret
  | |- fatalByFailure _ (lift (getCredentialsForContainer _ _)) =>
      apply byFailure_lookup
  | |- fatalByFailure _ (log_Printf _) => apply byFailure_log
  | |- fatalByFailure _ (runCommand _ _ _) => unfold runCommand
  | |- fatalByFailure _ (loginIfRequired _ _ _) => unfold loginIfRequired; cbv zeta
  | |- fatalByFailure _ (forRange _ _) => apply byFailure_forRange; intros ?
  | |- fatalByFailure _ (forRangeFrom _ _ _) =>
      apply byFailure_forRangeFrom; intros ? ?
  | |- fatalByFailure _ (if ?b then _ else _) => destruct b
  | |- fatalByFailure _ (match ?x with Some _ => _ | None => _ end) => destruct x
  end.

Variable credentials : list CredentialPtr.

Lemma byFailure_caseBuild (Getenv : string -> string) (r0 : string)
    (rest tagsSlice copySlice argsSlice : list string)
    (container tag path dockerfile : string) :
  fatalByFailure engine
    (caseBuild engine Getenv credentials (r0 :: rest) tagsSlice copySlice argsSlice
       container tag path dockerfile).
Proof.
  unfold caseBuild, index0. cbv zeta. repeat byFailure_step.
Qed.

Lemma byFailure_casePush (r0 : string) (rest tagsSlice : list string)
    (container tag : string) :
  fatalByFailure engine
    (casePush engine credentials (r0 :: rest) tagsSlice container tag).
Proof.
  unfold casePush, index0. cbv zeta. repeat byFailure_step.
Qed.

Lemma byFailure_caseTag (r0 : string) (rest tagsSlice : list string)
    (container tag : string) :
  fatalByFailure engine
    (caseTag engine credentials (r0 :: rest) tagsSlice container tag).
Proof.
  unfold caseTag, index0. cbv zeta. repeat byFailure_step.
Qed.

End Fatal.

(** X16. With a [repositories] flag that is not empty and one of the
    actions build, push and tag, a run is fatal only through a command that
    fails: the trace of a fatal run ends with a command that returned an
    error and the line of that error. *)
Theorem X16_fatal_only_by_failure
    (engine : Engine) (json_Unmarshal : string -> option (list CredentialPtr))
    (p : Process) :
  repositories (flags p) <> "" ->
  action (flags p) = "build" \/ action (flags p) = "push"
  \/ action (flags p) = "tag" ->
  snd (run engine json_Unmarshal p) = Fatal ->
  exists tr0 c msg,
    fst (run engine json_Unmarshal p) = tr0 ++ [Exec c; Log msg]
    /\ engine tr0 c = Some msg.
Proof.
  intros Hr Ha. unfold run.
  pose proof (splitList_not_nil _ Hr) as Hne.
  destruct Ha as [Ha|[Ha|Ha]].
  - rewrite (main_build engine json_Unmarshal p [] Ha Hr).
    destruct (splitList (repositories (flags p))) as [|r0 rest]; [contradiction|].
    apply byFailure_caseBuild.
  - rewrite (main_push engine json_Unmarshal p [] Ha Hr).
    destruct (splitList (repositories (flags p))) as [|r0 rest]; [contradiction|].
    apply byFailure_casePush.
  - rewrite (main_tag engine json_Unmarshal p [] Ha Hr).
    destruct (splitList (repositories (flags p))) as [|r0 rest]; [contradiction|].
    apply byFailure_caseTag.
Qed.

(* ===================================================================== *)
(** * The further properties at example inputs *)
(* ===================================================================== *)

Lemma X1_contains_witness :
  contains ["/etc/ssl/certs/ca-certificates.crt"; "Dockerfile"] "Dockerfile" = true.
Proof.
  apply (proj2 (X1_contains_In ["/etc/ssl/certs/ca-certificates.crt"; "Dockerfile"]
                  "Dockerfile")).
  right. left. reflexivity.
Defined.

Lemma X2_splitList_witness :
  strings.Join (splitList "extensions,docker.io/estafette") ","
  = "extensions,docker.io/estafette"
  /\ splitList "" = [].
Proof.
  split.
  - exact (proj1 (X2_splitList_round_trip "extensions,docker.io/estafette")).
  - exact (proj2 (proj2 (proj2 (X2_splitList_round_trip ""))) eq_refl).
Defined.

Lemma X3_tidy_witness : tidyBuildVersionAsTag "0.1.25-master" = "0.1.25-master".
Proof.
  exact (proj2 (proj2 (proj2 (X3_tidy_legal_short_fixed "0.1.25-master"))) eq_refl).
Defined.

Lemma X4_tidy_leading_witness :
  exists t,
    tidyBuildVersionAsTag ".hidden" = String "." t
    \/ tidyBuildVersionAsTag ".hidden" = String "-" t.
Proof.
  exact (X4_tidy_keeps_leading_period_or_dash "."%char "hidden" (or_introl eq_refl)).
Defined.

Lemma X5_lookup_witness :
  getCredentialsForContainer
    (map Some [estafetteCredential; extensionsCredential])
    (imagePath "extensions" "docker" (tidyBuildVersionAsTag "feature/x"))
  = Done (Some extensionsCredential)
  /\ getCredentialsForContainer
       (map Some [estafetteCredential; extensionsCredential])
       (imagePath "extensions" "docker" ("feature" ++ "/" ++ "x"))
     = Done None.
Proof.
  split.
  - exact (proj1 (X5_lookup_by_repository [estafetteCredential; extensionsCredential]
                    "extensions" "docker" "feature/x" eq_refl)).
  - exact (proj2 (X5_lookup_by_repository [estafetteCredential; extensionsCredential]
                    "extensions" "docker" "feature/x" eq_refl)
                 "feature" "x" eq_refl).
Defined.


Lemma X7_logins_witness :
  exists record,
    In (Some record) (credentialsOf twoCredentials tagOnlyExample)
    /\ loginCommand extensionsCredential = loginCommand record.
Proof.
  apply (X7_logins_from_credentials succeeds twoCredentials tagOnlyExample
           (loginCommand extensionsCredential)).
  - left. reflexivity.
  - reflexivity.
Defined.

Lemma X8_programs_witness :
  Name (mkCmd "mkdir" ["-p"; "publish"] "/estafette-work" true) = "docker"
  \/ (action (flags buildExample) = "build"
      /\ (Name (mkCmd "mkdir" ["-p"; "publish"] "/estafette-work" true) = "mkdir"
          \/ Name (mkCmd "mkdir" ["-p"; "publish"] "/estafette-work" true) = "cp")
      /\ Dir (mkCmd "mkdir" ["-p"; "publish"] "/estafette-work" true)
         = "/estafette-work").
Proof.
  apply (X8_programs_of_a_run succeeds twoCredentials buildExample).
  left. reflexivity.
Defined.

(** A refused pull: the run is fatal. *)
Lemma X9_first_failure_witness :
  snd (run refusesPull noJSON tagExample) = Fatal.
Proof.
  exact (proj2 (proj1 (X9_first_failure_is_fatal refusesPull noJSON tagExample)
                  [Log "Starting estafette-extension-docker version ...";
                   Log "Pulling container image a/app:1.0";
                   Log "Running command 'docker pull a/app:1.0'..."]
                  (docker ["pull"; "a/app:1.0"])
                  [Log "unauthorized"] "unauthorized" eq_refl eq_refl)).
Defined.

(** A push run never pulls: with the engine that refuses pulls it runs the
    commands of the run on which everything succeeds. *)
Lemma X10_truncation_witness :
  commands (fst (run succeeds noJSON pushExample))
  = commands (fst (run refusesPull noJSON pushExample)).
Proof.
  destruct (X10_failures_truncate_the_run refusesPull noJSON pushExample)
    as [rest [H1 H2]].
  assert (Hne : snd (run refusesPull noJSON pushExample) <> Fatal)
    by (vm_compute; discriminate).
  destruct (H2 Hne) as [Hrest _]. rewrite Hrest, app_nil_r in H1. exact H1.
Defined.

Lemma X11_push_commands_witness :
  snd (run succeeds twoCredentials pushLoginExample) = Done tt
  /\ commands (fst (run succeeds twoCredentials pushLoginExample))
     = [ loginCommand extensionsCredential;
         docker ["push"; "extensions/docker:1.0"];
         docker ["tag"; "extensions/docker:1.0"; "extensions/docker:dev"];
         loginCommand extensionsCredential;
         docker ["push"; "extensions/docker:dev"];
         mkCmd "docker"
           ["tag"; "extensions/docker:1.0"; "docker.io/estafette/docker:1.0"] "" false;
         loginCommand estafetteCredential;
         docker ["push"; "docker.io/estafette/docker:1.0"];
         docker ["tag"; "extensions/docker:1.0"; "docker.io/estafette/docker:dev"];
         loginCommand estafetteCredential;
         docker ["push"; "docker.io/estafette/docker:dev"] ].
Proof.
  apply (X11_push_commands succeeds twoCredentials pushLoginExample
           [estafetteCredential; extensionsCredential]);
    first [exact succeeds_ok | reflexivity | discriminate].
Defined.

Lemma X12_tag_commands_witness :
  snd (run succeeds twoCredentials tagOnlyExample) = Done tt
  /\ commands (fst (run succeeds twoCredentials tagOnlyExample))
     = [ loginCommand extensionsCredential;
         docker ["pull"; "extensions/docker:1.0"] ].
Proof.
  apply (X12_tag_commands succeeds twoCredentials tagOnlyExample
           [estafetteCredential; extensionsCredential]);
    first [exact succeeds_ok | reflexivity | discriminate].
Defined.

Lemma X13_build_commands_witness :
  snd (run succeeds twoCredentials buildCopyExample) = Done tt
  /\ commands (fst (run succeeds twoCredentials buildCopyExample))
     = [ mkCmd "mkdir" ["-p"; "publish"] "/estafette-work" true;
         mkCmd "cp" ["-r"; "/etc/ssl/certs/ca-certificates.crt"; "publish"]
           "/estafette-work" true;
         mkCmd "cp" ["-r"; "Dockerfile"; "publish"] "/estafette-work" true;
         loginCommand extensionsCredential;
         docker ["build"; "--tag"; "extensions/docker:1.0";
                 "--file"; "publish/Dockerfile"; "publish"] ].
Proof.
  apply (X13_build_commands succeeds twoCredentials buildCopyExample
           [estafetteCredential; extensionsCredential]);
    first [exact succeeds_ok | reflexivity | discriminate].
Defined.

Lemma X14_pushed_witness :
  pushed (engineOps (fst (run succeeds twoCredentials tagExample)))
  = ["a/app:dev"; "b/app:1.0"; "b/app:dev"].
Proof.
  apply (proj2 (X14_pushed_references succeeds twoCredentials tagExample
                  [estafetteCredential; extensionsCredential]
                  succeeds_ok eq_refl
                  ltac:(discriminate))
               eq_refl).
Defined.

Lemma X15_panic_witness : In None (credentialsOf nullEntry tagExample).
Proof.
  apply (X15_panic_only_on_nil_credential succeeds nullEntry tagExample).
  reflexivity.
Defined.

Lemma X16_fatal_witness :
  exists tr0 c msg,
    fst (run refusesPull noJSON tagExample) = tr0 ++ [Exec c; Log msg]
    /\ refusesPull tr0 c = Some msg.
Proof.
  apply (X16_fatal_only_by_failure refusesPull noJSON tagExample).
  - discriminate.
  - right. right. reflexivity.
  - reflexivity.
Defined.
